(** * scripts/seed_reminders.py: the reminder seeding command

    A shallow embedding of [main] of [scripts/seed_reminders.py] and of the
    library calls it makes ([argparse.ArgumentParser.parse_args],
    [json.dumps], [print], [subprocess.run]), followed by the properties of
    the command that its specification states.

    Python strings are sequences of Unicode code points; integers are
    unbounded.  The argument parser is the one [main] builds at lines 25-30,
    with the parsing algorithm of CPython 3.11's [argparse]. *)

From Stdlib Require Import NArith ZArith List Bool Lia String Ascii.
From Stdlib Require Import Decimal.
From Stdlib Require DecimalFacts DecimalPos.
Import ListNotations.

Local Open Scope N_scope.
Local Open Scope list_scope.

(** ** Strings *)

Definition char := N.
Definition str := list char.

(** The code points of an ASCII literal. *)
Definition lit (s : string) : str := map N_of_ascii (list_ascii_of_string s).

Fixpoint str_eqb (s t : str) : bool :=
  match s, t with
  | [], [] => true
  | c :: s', d :: t' => (c =? d) && str_eqb s' t'
  | _, _ => false
  end.

(** [s.startswith(p)] *)
Fixpoint startswith (s p : str) : bool :=
  match p, s with
  | [], _ => true
  | d :: p', c :: s' => (c =? d) && startswith s' p'
  | _ :: _, [] => false
  end.

(** [c in s] for a one-character [c] *)
Definition contains_char (c : char) (s : str) : bool := existsb (N.eqb c) s.

(** [s.split(c, 1)] when [c] occurs in [s]: the text before the first [c]
    and the text after it. *)
Fixpoint split_first (c : char) (s : str) : option (str * str) :=
  match s with
  | [] => None
  | d :: s' =>
      if d =? c then Some ([], s')
      else match split_first c s' with
           | Some (l, r) => Some (d :: l, r)
           | None => None
           end
  end.

(** [sep.join(xs)] *)
Fixpoint join (sep : str) (xs : list str) : str :=
  match xs with
  | [] => []
  | [x] => x
  | x :: xs' => x ++ sep ++ join sep xs'
  end.

Definition c_minus : char := 45.
Definition c_dot : char := 46.
Definition c_equals : char := 61.
Definition c_space : char := 32.
Definition c_newline : char := 10.

(** ** Values held by the namespace and the payload *)

Inductive value :=
| VInt (z : Z)
| VStr (s : str)
| VEmptyList.

(** The attributes [argparse] derives from the five flags. *)
Inductive dest := Count1h | Count24h | Minutes1h | Minutes24h | TeamName.

Record Namespace := {
  count_1h : value;
  count_24h : value;
  minutes_1h : value;
  minutes_24h : value;
  team_name : value
}.

Definition getattr (ns : Namespace) (d : dest) : value :=
  match d with
  | Count1h => count_1h ns
  | Count24h => count_24h ns
  | Minutes1h => minutes_1h ns
  | Minutes24h => minutes_24h ns
  | TeamName => team_name ns
  end.

Definition setattr (ns : Namespace) (d : dest) (v : value) : Namespace :=
  match d with
  | Count1h => {| count_1h := v; count_24h := count_24h ns;
                  minutes_1h := minutes_1h ns; minutes_24h := minutes_24h ns;
                  team_name := team_name ns |}
  | Count24h => {| count_1h := count_1h ns; count_24h := v;
                   minutes_1h := minutes_1h ns; minutes_24h := minutes_24h ns;
                   team_name := team_name ns |}
  | Minutes1h => {| count_1h := count_1h ns; count_24h := count_24h ns;
                    minutes_1h := v; minutes_24h := minutes_24h ns;
                    team_name := team_name ns |}
  | Minutes24h => {| count_1h := count_1h ns; count_24h := count_24h ns;
                     minutes_1h := minutes_1h ns; minutes_24h := v;
                     team_name := team_name ns |}
  | TeamName => {| count_1h := count_1h ns; count_24h := count_24h ns;
                   minutes_1h := minutes_1h ns; minutes_24h := minutes_24h ns;
                   team_name := v |}
  end.

(** ** The argument parser of [main] (lines 25-30) *)

Inductive argtype := type_int | type_str.

(** An action of the parser: the help action that [ArgumentParser()] adds,
    or the store action of an [add_argument] call. *)
Inductive action :=
| Help
| Store (d : dest) (type : argtype) (default : value).

(** [parser._option_string_actions], in registration order. *)
Definition option_string_actions : list (str * action) :=
  [ (lit "-h", Help);
    (lit "--help", Help);
    (lit "--count-1h", Store Count1h type_int (VInt 2));
    (lit "--count-24h", Store Count24h type_int (VInt 2));
    (lit "--minutes-1h", Store Minutes1h type_int (VInt 65));
    (lit "--minutes-24h", Store Minutes24h type_int (VInt (24 * 60 + 10)));
    (lit "--team-name", Store TeamName type_str (VStr (lit "Seed Team"))) ].

Fixpoint lookup_action (tbl : list (str * action)) (s : str) : option action :=
  match tbl with
  | [] => None
  | (o, a) :: tbl' => if str_eqb s o then Some a else lookup_action tbl' s
  end.

(** The namespace before any argument is read: every store action's
    default under its attribute. *)
Definition default_namespace : Namespace :=
  fold_left
    (fun ns oa => match snd oa with
                  | Store d _ v => setattr ns d v
                  | Help => ns
                  end)
    option_string_actions
    {| count_1h := VEmptyList; count_24h := VEmptyList;
       minutes_1h := VEmptyList; minutes_24h := VEmptyList;
       team_name := VEmptyList |}.

Inductive arg_error :=
| ambiguous_option (arg : str) (matches : list str)
| expected_one_argument (a : action)
| ignored_explicit_argument (a : action) (explicit_arg : str)
| invalid_int_value (a : action) (arg : str)
| unrecognized_arguments (extras : list str).

(** How [parse_args] ends: it returns the namespace, or it leaves the
    program through [parser.exit] after printing the help (status 0) or a
    usage error (status 2). *)
Inductive parsed :=
| Parsed (ns : Namespace)
| HelpExit
| UsageError (e : arg_error).

(** What [_parse_optional] makes of one argument string. *)
Inductive optional_tuple :=
| Positional
| Optional (a : option action) (option_string : str) (explicit_arg : option str)
| Ambiguous (matches : list str).

(** The class of an argument string in [arg_strings_pattern]. *)
Inductive pattern :=
| pA
| pDash
| pO (a : option action) (option_string : str) (explicit_arg : option str).

Inductive consumed :=
| Taken (ns : Namespace) (arg_count : nat)
| Left (p : parsed).

Section Parser.

(** Two tables of the Python runtime stay parameters: the decimal digits of
    Unicode, which the regular expression class [\d] matches, and the
    [int] constructor on strings ([None] where it raises [ValueError]). *)
Variable isdecimal : char -> bool.
Variable py_int : str -> option Z.

(** [parser._negative_number_matcher], [^-\d+$|^-\d*\.\d+$]; [$] also
    matches before a final newline. *)
Fixpoint digits_then_end (seen : bool) (s : str) : bool :=
  match s with
  | [] => seen
  | c :: s' =>
      if isdecimal c then digits_then_end true s'
      else seen && (c =? c_newline) && match s' with [] => true | _ => false end
  end.

Fixpoint digits_dot_digits (s : str) : bool :=
  match s with
  | [] => false
  | c :: s' =>
      if isdecimal c then digits_dot_digits s'
      else (c =? c_dot) && digits_then_end false s'
  end.

Definition negative_number_matcher (s : str) : bool :=
  match s with
  | c :: s' => (c =? c_minus) && (digits_then_end false s' || digits_dot_digits s')
  | [] => false
  end.

(** [_get_option_tuples]: the options an abbreviated or clustered argument
    string may stand for. *)
Definition get_option_tuples (option_string : str)
  : list (action * str * option str) :=
  match option_string with
  | c0 :: c1 :: _ =>
      if (c0 =? c_minus) && (c1 =? c_minus) then
        let '(option_prefix, explicit_arg) :=
          match split_first c_equals option_string with
          | Some (p, e) => (p, Some e)
          | None => (option_string, None)
          end in
        flat_map (fun oa => if startswith (fst oa) option_prefix
                            then [(snd oa, fst oa, explicit_arg)] else [])
                 option_string_actions
      else if c0 =? c_minus then
        let short_option_prefix := firstn 2 option_string in
        let short_explicit_arg := skipn 2 option_string in
        flat_map (fun oa => if str_eqb (fst oa) short_option_prefix
                            then [(snd oa, fst oa, Some short_explicit_arg)]
                            else if startswith (fst oa) option_string
                            then [(snd oa, fst oa, None)] else [])
                 option_string_actions
      else []
  | _ => []
  end.

Definition parse_optional (arg_string : str) : optional_tuple :=
  match arg_string with
  | [] => Positional
  | c0 :: tl =>
      if negb (c0 =? c_minus) then Positional
      else match lookup_action option_string_actions arg_string with
      | Some a => Optional (Some a) arg_string None
      | None =>
          match tl with
          | [] => Positional
          | _ :: _ =>
              let explicit :=
                match split_first c_equals arg_string with
                | Some (option_string, explicit_arg) =>
                    match lookup_action option_string_actions option_string with
                    | Some a => Some (Optional (Some a) option_string (Some explicit_arg))
                    | None => None
                    end
                | None => None
                end in
              match explicit with
              | Some t => t
              | None =>
                  match get_option_tuples arg_string with
                  | (_ :: _ :: _) as ts => Ambiguous (map (fun t => snd (fst t)) ts)
                  | [(a, option_string, explicit_arg)] =>
                      Optional (Some a) option_string explicit_arg
                  | [] =>
                      if negative_number_matcher arg_string then Positional
                      else if contains_char c_space arg_string then Positional
                      else Optional None arg_string None
                  end
              end
          end
      end
  end.

(** The first loop of [_parse_known_args]: the pattern of every argument
    string; everything after [--] is an argument.  An ambiguous
    abbreviation ends the parse here, before any action is taken. *)
Fixpoint classify (arg_strings : list str) : arg_error + list (str * pattern) :=
  match arg_strings with
  | [] => inr []
  | arg_string :: rest =>
      if str_eqb arg_string (lit "--") then
        inr ((arg_string, pDash) :: map (fun s => (s, pA)) rest)
      else match parse_optional arg_string with
      | Ambiguous ms => inl (ambiguous_option arg_string ms)
      | Positional =>
          match classify rest with
          | inl e => inl e
          | inr ps => inr ((arg_string, pA) :: ps)
          end
      | Optional a o e =>
          match classify rest with
          | inl e' => inl e'
          | inr ps => inr ((arg_string, pO a o e) :: ps)
          end
      end
  end.

(** [_get_nargs_pattern] and [_match_argument] on the text of [A], [O] and
    [-] that follows: the help action takes no argument, a store action
    exactly one [A]. *)
Definition nargs (a : action) : nat :=
  match a with Help => 0 | Store _ _ _ => 1 end.

Definition match_argument (a : action) (selected : list (str * pattern))
  : option nat :=
  match a with
  | Help => Some 0%nat
  | Store _ _ _ =>
      match selected with
      | (_, pA) :: _ => Some 1%nat
      | _ => None
      end
  end.

(** [_get_value] *)
Definition get_value (a : action) (type : argtype) (arg_string : str)
  : arg_error + value :=
  match type with
  | type_str => inr (VStr arg_string)
  | type_int =>
      match py_int arg_string with
      | Some z => inr (VInt z)
      | None => inl (invalid_int_value a arg_string)
      end
  end.

(** [list.remove] of the first occurrence, when there is one. *)
Fixpoint remove_first (x : str) (l : list str) : list str :=
  match l with
  | [] => []
  | y :: l' => if str_eqb y x then l' else y :: remove_first x l'
  end.

(** [_get_values] for an action with [nargs=None]: the first [--] among
    the argument strings is dropped; one string left is converted, and no
    string left gives the empty list (a store action is never handed more
    than one string). *)
Definition get_values (a : action) (type : argtype) (arg_strings : list str)
  : arg_error + value :=
  match remove_first (lit "--") arg_strings with
  | [arg_string] => get_value a type arg_string
  | _ => inr VEmptyList
  end.

(** [take_action] on one entry of [action_tuples]. *)
Definition take_action (ns : Namespace) (t : action * list str * str)
  : Namespace + parsed :=
  match t with
  | (Help, _, _) => inr HelpExit
  | (Store d type _ as a, args, _) =>
      match get_values a type args with
      | inl e => inr (UsageError e)
      | inr v => inl (setattr ns d v)
      end
  end.

Fixpoint take_actions (ns : Namespace) (ts : list (action * list str * str))
  : Namespace + parsed :=
  match ts with
  | [] => inl ns
  | t :: ts' =>
      match take_action ns t with
      | inl ns' => take_actions ns' ts'
      | inr p => inr p
      end
  end.

(** The [while True] loop of [consume_optional] while there is an explicit
    argument: a single-dash option that takes no argument passes the rest
    of the string on as further single-dash options.  The result is the
    list [action_tuples] and the number of following strings taken. *)
Fixpoint explicit_loop (a : action) (option_string : str) (explicit_arg : str)
    (selected : list (str * pattern)) (action_tuples : list (action * list str * str))
  : arg_error + (list (action * list str * str) * nat) :=
  let single_dash :=
    match option_string with
    | _ :: c1 :: _ => negb (c1 =? c_minus)
    | _ => false
    end in
  match nargs a, explicit_arg with
  | O, c :: new_explicit_arg =>
      if single_dash then
        let option_string' := [c_minus; c] in
        match lookup_action option_string_actions option_string' with
        | Some a' =>
            let action_tuples' := action_tuples ++ [(a, [], option_string)] in
            match new_explicit_arg with
            | [] =>
                match match_argument a' selected with
                | Some n =>
                    inr (action_tuples'
                           ++ [(a', map fst (firstn n selected), option_string')], n)
                | None => inl (expected_one_argument a')
                end
            | _ :: _ =>
                explicit_loop a' option_string' new_explicit_arg selected action_tuples'
            end
        | None => inl (ignored_explicit_argument a explicit_arg)
        end
      else inl (ignored_explicit_argument a explicit_arg)
  | O, [] => inl (ignored_explicit_argument a explicit_arg)
  | S O, _ => inr (action_tuples ++ [(a, [explicit_arg], option_string)], 0%nat)
  | _, _ => inl (ignored_explicit_argument a explicit_arg)
  end.

(** [consume_optional]: the option at the current index, with the strings
    that follow it. *)
Definition consume_optional (ns : Namespace) (a : action) (option_string : str)
    (explicit_arg : option str) (selected : list (str * pattern)) : consumed :=
  let tuples :=
    match explicit_arg with
    | Some e => explicit_loop a option_string e selected []
    | None =>
        match match_argument a selected with
        | Some n => inr ([(a, map fst (firstn n selected), option_string)], n)
        | None => inl (expected_one_argument a)
        end
    end in
  match tuples with
  | inl e => Left (UsageError e)
  | inr (ts, n) =>
      match take_actions ns ts with
      | inl ns' => Taken ns' n
      | inr p => Left p
      end
  end.

(** The main loop of [_parse_known_args] for a parser without positional
    arguments, followed by the check of [parse_args]: strings that are no
    option and belong to no option are collected in [extras], and any
    extra is an error. *)
Fixpoint consume (ps : list (str * pattern)) (ns : Namespace) (extras : list str)
  : parsed :=
  match ps with
  | [] =>
      match extras with
      | [] => Parsed ns
      | _ :: _ => UsageError (unrecognized_arguments extras)
      end
  | (s, pA) :: rest | (s, pDash) :: rest | (s, pO None _ _) :: rest =>
      consume rest ns (extras ++ [s])
  | (s, pO (Some a) option_string explicit_arg) :: rest =>
      match consume_optional ns a option_string explicit_arg rest with
      | Left p => p
      | Taken ns' O => consume rest ns' extras
      | Taken ns' (S _) =>
          (* one following string was taken: [match_argument] found it *)
          match rest with
          | _ :: rest' => consume rest' ns' extras
          | [] => Parsed ns'
          end
      end
  end.

Definition parse_args (arg_strings : list str) : parsed :=
  match classify arg_strings with
  | inl e => UsageError e
  | inr ps => consume ps default_namespace []
  end.

End Parser.

(** ** [json.dumps] on the payload *)

Definition c_quote : char := 34.
Definition c_backslash : char := 92.

Fixpoint uint_str (u : uint) : str :=
  match u with
  | Nil => []
  | D0 u' => 48 :: uint_str u'
  | D1 u' => 49 :: uint_str u'
  | D2 u' => 50 :: uint_str u'
  | D3 u' => 51 :: uint_str u'
  | D4 u' => 52 :: uint_str u'
  | D5 u' => 53 :: uint_str u'
  | D6 u' => 54 :: uint_str u'
  | D7 u' => 55 :: uint_str u'
  | D8 u' => 56 :: uint_str u'
  | D9 u' => 57 :: uint_str u'
  end.

(** [int.__repr__]: the decimal digits, after a minus sign when negative. *)
Definition repr_int (z : Z) : str :=
  match Z.to_int z with
  | Pos u => uint_str u
  | Neg u => c_minus :: uint_str u
  end.

Definition hexdigit (d : N) : char := if d <? 10 then 48 + d else 87 + d.

(** ['{0:04x}'.format(n)] for [n < 0x10000], the only values it is given. *)
Definition format_04x (n : N) : str :=
  [hexdigit (n / 4096 mod 16); hexdigit (n / 256 mod 16);
   hexdigit (n / 16 mod 16); hexdigit (n mod 16)].

(** The replacement [py_encode_basestring_ascii] makes for one character:
    [ESCAPE_ASCII] matches the backslash, the double quote and whatever
    lies outside the range from the space to the tilde. *)
Definition escape_ascii (c : char) : str :=
  if c =? c_backslash then [c_backslash; c_backslash]
  else if c =? c_quote then [c_backslash; c_quote]
  else if c =? 8 then lit "\b"
  else if c =? 12 then lit "\f"
  else if c =? 10 then lit "\n"
  else if c =? 13 then lit "\r"
  else if c =? 9 then lit "\t"
  else if (32 <=? c) && (c <=? 126) then [c]
  else if c <? 65536 then lit "\u" ++ format_04x c
  else
    let n := c - 65536 in
    let s1 := N.lor 55296 (N.land (N.shiftr n 10) 1023) in
    let s2 := N.lor 56320 (N.land n 1023) in
    lit "\u" ++ format_04x s1 ++ lit "\u" ++ format_04x s2.

Definition encode_basestring_ascii (s : str) : str :=
  c_quote :: flat_map escape_ascii s ++ [c_quote].

Definition encode_value (v : value) : str :=
  match v with
  | VInt z => repr_int z
  | VStr s => encode_basestring_ascii s
  | VEmptyList => lit "[]"
  end.

Definition encode_item (kv : str * value) : str :=
  encode_basestring_ascii (fst kv) ++ lit ": " ++ encode_value (snd kv).

(** [json.dumps(d)] for a dictionary with string keys, with the default
    separators and [ensure_ascii]. *)
Definition json_dumps (d : list (str * value)) : str :=
  lit "{" ++ join (lit ", ") (map encode_item d) ++ lit "}".

(** ** A reader of JSON texts

    The reader follows RFC 8259 on the texts that are objects whose members
    are strings, integers or the empty array; it is the yardstick for what
    the child process finds in its last argument. *)

Definition is_ws (c : char) : bool :=
  (c =? 32) || (c =? 9) || (c =? 10) || (c =? 13).

Fixpoint skip_ws (s : str) : str :=
  match s with
  | c :: s' => if is_ws c then skip_ws s' else s
  | [] => []
  end.

Definition hexval (c : char) : option N :=
  if (48 <=? c) && (c <=? 57) then Some (c - 48)
  else if (97 <=? c) && (c <=? 102) then Some (c - 87)
  else if (65 <=? c) && (c <=? 70) then Some (c - 55)
  else None.

Definition decode_uXXXX (h1 h2 h3 h4 : char) : option N :=
  match hexval h1, hexval h2, hexval h3, hexval h4 with
  | Some a, Some b, Some c, Some d => Some (((a * 16 + b) * 16 + c) * 16 + d)
  | _, _, _, _ => None
  end.

Definition is_high_surrogate (u : N) : bool := (55296 <=? u) && (u <=? 56319).
Definition is_low_surrogate (u : N) : bool := (56320 <=? u) && (u <=? 57343).

(** The low surrogate escape that follows a high surrogate, if any. *)
Definition low_escape (s : str) : option N :=
  match s with
  | b :: u :: l1 :: l2 :: l3 :: l4 :: _ =>
      if (b =? c_backslash) && (u =? 117) then
        match decode_uXXXX l1 l2 l3 l4 with
        | Some uni2 => if is_low_surrogate uni2 then Some uni2 else None
        | None => None
        end
      else None
  | _ => None
  end.

Definition push (c : char) (r : option (str * str)) : option (str * str) :=
  match r with
  | Some (s, rest) => Some (c :: s, rest)
  | None => None
  end.

(** The characters of a string up to its closing quote, and the text that
    follows the quote. *)
Fixpoint scan_string (s : str) : option (str * str) :=
  match s with
  | [] => None
  | c :: s1 =>
      if c =? c_quote then Some ([], s1)
      else if c =? c_backslash then
        match s1 with
        | [] => None
        | e :: s2 =>
            if e =? 117 then
              match s2 with
              | h1 :: h2 :: h3 :: h4 :: s3 =>
                  match decode_uXXXX h1 h2 h3 h4 with
                  | None => None
                  | Some uni =>
                      match (if is_high_surrogate uni then low_escape s3 else None), s3 with
                      | Some uni2, _ :: _ :: _ :: _ :: _ :: _ :: s4 =>
                          push (65536 + N.lor (N.shiftl (uni - 55296) 10) (uni2 - 56320))
                               (scan_string s4)
                      | _, _ => push uni (scan_string s3)
                      end
                  end
              | _ => None
              end
            else if e =? c_quote then push c_quote (scan_string s2)
            else if e =? c_backslash then push c_backslash (scan_string s2)
            else if e =? 47 then push 47 (scan_string s2)
            else if e =? 98 then push 8 (scan_string s2)
            else if e =? 102 then push 12 (scan_string s2)
            else if e =? 110 then push 10 (scan_string s2)
            else if e =? 114 then push 13 (scan_string s2)
            else if e =? 116 then push 9 (scan_string s2)
            else None
        end
      else if c <? 32 then None
      else push c (scan_string s1)
  end.

Definition digit_of (c : char) : option (uint -> uint) :=
  if c =? 48 then Some D0 else if c =? 49 then Some D1
  else if c =? 50 then Some D2 else if c =? 51 then Some D3
  else if c =? 52 then Some D4 else if c =? 53 then Some D5
  else if c =? 54 then Some D6 else if c =? 55 then Some D7
  else if c =? 56 then Some D8 else if c =? 57 then Some D9
  else None.

(** The longest run of digits at the head of a text. *)
Fixpoint scan_digits (s : str) : uint * str :=
  match s with
  | c :: s' =>
      match digit_of c with
      | Some d => let (u, rest) := scan_digits s' in (d u, rest)
      | None => (Nil, s)
      end
  | [] => (Nil, [])
  end.

(** The digits of an integer: no leading zero, and no fraction or exponent
    after them (that would make the number no integer). *)
Definition scan_number (negative : bool) (s : str) : option (Z * str) :=
  let (u, rest) := scan_digits s in
  let plain :=
    match u with
    | Nil => false
    | D0 Nil => true
    | D0 _ => false
    | _ => true
    end in
  let ended :=
    match rest with
    | c :: _ => negb ((c =? c_dot) || (c =? 101) || (c =? 69))
    | [] => true
    end in
  if plain && ended
  then Some (if negative then (- Z.of_uint u)%Z else Z.of_uint u, rest)
  else None.

(** An integer, with an optional minus sign. *)
Definition scan_int (s : str) : option (Z * str) :=
  match s with
  | c :: tl => if c =? c_minus then scan_number true tl else scan_number false s
  | [] => None
  end.

Definition scan_value (s : str) : option (value * str) :=
  match s with
  | c :: s' =>
      if c =? c_quote then
        match scan_string s' with
        | Some (t, rest) => Some (VStr t, rest)
        | None => None
        end
      else if c =? 91 then
        match skip_ws s' with
        | c' :: rest => if c' =? 93 then Some (VEmptyList, rest) else None
        | [] => None
        end
      else
        match scan_int s with
        | Some (z, rest) => Some (VInt z, rest)
        | None => None
        end
  | [] => None
  end.

(** The members of an object, from the first name to the closing brace. *)
Fixpoint scan_members (fuel : nat) (s : str) : option (list (str * value) * str) :=
  match fuel with
  | O => None
  | S fuel' =>
      match skip_ws s with
      | q :: s1 =>
          if q =? c_quote then
            match scan_string s1 with
            | Some (k, s2) =>
                match skip_ws s2 with
                | colon :: s3 =>
                    if colon =? 58 then
                      match scan_value (skip_ws s3) with
                      | Some (v, s4) =>
                          match skip_ws s4 with
                          | d :: s5 =>
                              if d =? 44 then
                                match scan_members fuel' s5 with
                                | Some (kvs, rest) => Some ((k, v) :: kvs, rest)
                                | None => None
                                end
                              else if d =? 125 then Some ([(k, v)], s5)
                              else None
                          | [] => None
                          end
                      | None => None
                      end
                    else None
                | [] => None
                end
            | None => None
            end
          else None
      | [] => None
      end
  end.

Definition json_loads (s : str) : option (list (str * value)) :=
  match skip_ws s with
  | c :: s1 =>
      if c =? 123 then
        match skip_ws s1 with
        | c' :: s2 =>
            if c' =? 125
            then match skip_ws s2 with [] => Some [] | _ :: _ => None end
            else match scan_members (List.length s) s1 with
                 | Some (kvs, rest) =>
                     match skip_ws rest with [] => Some kvs | _ :: _ => None end
                 | None => None
                 end
        | [] => None
        end
      else None
  | [] => None
  end.

(** ** Effects: output, the child process, exceptions *)

Inductive stream := stdout | stderr.

Inductive oserror := FileNotFoundError | PermissionError | OSError.

Inductive exn :=
| SystemExit (code : Z)
| CalledProcessError (returncode : Z)
| LaunchError (e : oserror).

(** What is written to a stream.  [print] writes a line; the texts that
    [argparse] and the interpreter format are kept abstract. *)
Inductive text :=
| Line (s : str)
| HelpText
| UsageText (e : arg_error)
| Traceback (e : exn).

(** What the program does to the world, in order: it writes, it asks the
    system to start a child with an argument vector, and it collects the
    return code of a child that has ended. *)
Inductive event :=
| Write (f : stream) (t : text)
| Popen (args : list str)
| Wait (returncode : Z).

(** What the system answers to [Popen(args)]: the child ran and ended with
    a return code, or it could not be started. *)
Inductive child :=
| Completed (returncode : Z)
| NotStarted (e : oserror).


(** A computation leaves a trace and returns or raises. *)
Definition M (A : Type) : Type := list event * (exn + A).

Definition ret {A} (a : A) : M A := ([], inr a).
Definition raise {A} (e : exn) : M A := ([], inl e).
Definition emit (ev : event) : M unit := ([ev], inr tt).

Definition bind {A B} (m : M A) (k : A -> M B) : M B :=
  match m with
  | (tr, inl e) => (tr, inl e)
  | (tr, inr a) => let (tr', r) := k a in (tr ++ tr', r)
  end.

(** [try: m except ...: h], where [h] tells which exceptions it handles. *)
Definition try_except {A} (m : M A) (h : exn -> option (M A)) : M A :=
  match m with
  | (tr, inl e) =>
      match h e with
      | Some k => let (tr', r) := k in (tr ++ tr', r)
      | None => (tr, inl e)
      end
  | (tr, inr a) => (tr, inr a)
  end.

Notation "x <- m ;; k" := (bind m (fun x => k))
  (at level 61, m at next level, right associativity).
Notation "m ;;; k" := (bind m (fun _ => k))
  (at level 61, right associativity).

(** [print] with [file=f]: the objects, joined by a space, and a newline. *)
Definition print (f : stream) (objs : list str) : M unit :=
  emit (Write f (Line (join (lit " ") objs))).

Section Program.

Variable isdecimal : char -> bool.
Variable py_int : str -> option Z.

(** The system the program runs on: its answer to an argument vector. *)
Variable os : list str -> child.

(** [parser.parse_args()] with its exits: the help goes to standard output
    and ends the program with status 0; a usage error goes to standard
    error and ends it with status 2. *)
Definition parse_args_exit (argv : list str) : M Namespace :=
  match parse_args isdecimal py_int argv with
  | Parsed ns => ret ns
  | HelpExit => emit (Write stdout HelpText) ;;; raise (SystemExit 0)
  | UsageError e => emit (Write stderr (UsageText e)) ;;; raise (SystemExit 2)
  end.

(** [subprocess.run(cmd, check=True)]: the call returns when the child has
    ended; a return code other than zero raises [CalledProcessError]. *)
Definition subprocess_run (cmd : list str) : M unit :=
  emit (Popen cmd) ;;;
  match os cmd with
  | NotStarted e => raise (LaunchError e)
  | Completed returncode =>
      emit (Wait returncode) ;;;
      if (returncode =? 0)%Z then ret tt
      else raise (CalledProcessError returncode)
  end.

(** Lines 33-39. *)
Definition payload (args : Namespace) : list (str * value) :=
  [ (lit "count1h", count_1h args);
    (lit "count24h", count_24h args);
    (lit "minutesFromNowFor1h", minutes_1h args);
    (lit "minutesFromNowFor24h", minutes_24h args);
    (lit "reuseTeamName", team_name args) ].

(** Lines 41-47. *)
Definition cmd (args : Namespace) : list str :=
  [ lit "npx";
    lit "convex";
    lit "run";
    lit "internal.reminders.seedRemindersTestData";
    json_dumps (payload args) ].

Definition seed_failed (returncode : Z) : str :=
  lit "Seed failed (exit " ++ repr_int returncode ++ lit ").".

Definition main (argv : list str) : M Z :=
  args <- parse_args_exit argv ;;
  print stdout [lit "Running:"; join (lit " ") (cmd args)] ;;;
  try_except
    (subprocess_run (cmd args) ;;; ret 0%Z)
    (fun e => match e with
              | CalledProcessError returncode =>
                  Some (print stderr [seed_failed returncode] ;;; ret returncode)
              | _ => None
              end).

(** The status the parent of the program sees for [sys.exit(code)]: the
    low eight bits. *)
Definition exit_status (code : Z) : Z := Z.land code 255.

(** Lines 58-59 under the interpreter: [raise SystemExit(main())]; an
    exception other than [SystemExit] that reaches the top is reported
    with a traceback on standard error and status 1. *)
Definition script (argv : list str) : list event * Z :=
  match main argv with
  | (tr, inr code) => (tr, exit_status code)
  | (tr, inl (SystemExit code)) => (tr, exit_status code)
  | (tr, inl e) => (tr ++ [Write stderr (Traceback e)], 1%Z)
  end.

End Program.

(** ** Observations on a run *)

(** What a run writes to one stream. *)
Fixpoint writes (f : stream) (tr : list event) : list text :=
  match tr with
  | Write stdout t :: tr' =>
      match f with stdout => t :: writes f tr' | stderr => writes f tr' end
  | Write stderr t :: tr' =>
      match f with stderr => t :: writes f tr' | stdout => writes f tr' end
  | _ :: tr' => writes f tr'
  | [] => []
  end.

(** The argument vectors a run asks the system to start. *)
Fixpoint popens (tr : list event) : list (list str) :=
  match tr with
  | Popen args :: tr' => args :: popens tr'
  | _ :: tr' => popens tr'
  | [] => []
  end.

(** The return codes a run collects. *)
Fixpoint waits (tr : list event) : list Z :=
  match tr with
  | Wait rc :: tr' => rc :: waits tr'
  | _ :: tr' => waits tr'
  | [] => []
  end.

(** [d[k]], for a dictionary given by its items. *)
Fixpoint dict_get (k : str) (d : list (str * value)) : option value :=
  match d with
  | [] => None
  | (k', v) :: d' => if str_eqb k k' then Some v else dict_get k d'
  end.

(** The line that announces the command. *)
Definition running (args : Namespace) : event :=
  Write stdout (Line (lit "Running: " ++ join (lit " ") (cmd args))).

(** ** The vocabulary of the specification *)

(** The flags of the command line, the payload field each one feeds and
    the type of its value. *)
Definition flag_fields : list (str * str * argtype) :=
  [ (lit "--count-1h", lit "count1h", type_int);
    (lit "--count-24h", lit "count24h", type_int);
    (lit "--minutes-1h", lit "minutesFromNowFor1h", type_int);
    (lit "--minutes-24h", lit "minutesFromNowFor24h", type_int);
    (lit "--team-name", lit "reuseTeamName", type_str) ].

(** The defaults the specification gives. *)
Definition flag_defaults : list (str * str * value) :=
  [ (lit "--count-1h", lit "count1h", VInt 2);
    (lit "--count-24h", lit "count24h", VInt 2);
    (lit "--minutes-1h", lit "minutesFromNowFor1h", VInt 65);
    (lit "--minutes-24h", lit "minutesFromNowFor24h", VInt 1450);
    (lit "--team-name", lit "reuseTeamName", VStr (lit "Seed Team")) ].

(** The value a flag of type [ty] makes of the string [v]. *)
Definition converted (py_int : str -> option Z) (ty : argtype) (v : str)
  : option value :=
  match ty with
  | type_int => option_map VInt (py_int v)
  | type_str => Some (VStr v)
  end.

(** The argument string [t] stands for the option [flag], in full or
    abbreviated, with or without a joined value. *)
Definition names_option (isdecimal : char -> bool) (flag t : str) : bool :=
  match parse_optional isdecimal t with
  | Optional (Some _) o _ => str_eqb o flag
  | _ => false
  end.

(** The argument string [t] asks for the help. *)
Definition asks_help (isdecimal : char -> bool) (t : str) : bool :=
  match parse_optional isdecimal t with
  | Optional (Some Help) _ _ => true
  | _ => false
  end.

(** A character of a string the system hands over on the command line: a
    code point that is no high surrogate (undecodable bytes come in as low
    surrogates). *)
Definition os_char (c : char) : bool := (c <? 1114112) && negb (is_high_surrogate c).

Definition wf_value (v : value) : bool :=
  match v with
  | VStr s => forallb os_char s
  | _ => true
  end.

Definition wf_item (kv : str * value) : bool :=
  forallb os_char (fst kv) && wf_value (snd kv).

Definition wf_namespace (ns : Namespace) : bool :=
  wf_value (count_1h ns) && wf_value (count_24h ns) && wf_value (minutes_1h ns)
  && wf_value (minutes_24h ns) && wf_value (team_name ns).

(** The characters from the space to the tilde. *)
Definition printable (c : char) : bool := (32 <=? c) && (c <=? 126).

(** What may follow a value inside an object. *)
Definition ends_number (rest : str) : bool :=
  match rest with
  | c :: _ => (c =? 44) || (c =? 125)
  | [] => true
  end.

(** ** Patterns, for the proofs about the parser *)

(** The pattern [classify] gives a string that is not [--]. *)
Definition cls (isdecimal : char -> bool) (s : str) : str * pattern :=
  (s, match parse_optional isdecimal s with
      | Optional a o e => pO a o e
      | _ => pA
      end).

Definition arg_of (s : str) : str * pattern := (s, pA).

Definition helpful (sp : str * pattern) : bool :=
  match snd sp with
  | pO (Some Help) _ _ => true
  | _ => false
  end.

Definition head_not_arg (ps : list (str * pattern)) : Prop :=
  match ps with
  | (_, pA) :: _ => False
  | _ => True
  end.

Definition dest_eqb (d d' : dest) : bool :=
  match d, d' with
  | Count1h, Count1h | Count24h, Count24h | Minutes1h, Minutes1h
  | Minutes24h, Minutes24h | TeamName, TeamName => true
  | _, _ => false
  end.

Definition stores (d : dest) (sp : str * pattern) : bool :=
  match snd sp with
  | pO (Some (Store d' _ _)) _ _ => dest_eqb d d'
  | _ => false
  end.

Definition wf_pattern (sp : str * pattern) : bool :=
  forallb os_char (fst sp) &&
  match snd sp with
  | pO _ _ (Some e) => forallb os_char e
  | _ => true
  end.

(** ** A system to run the program on *)

(** The decimal digits of ASCII. *)
Definition ascii_isdecimal (c : char) : bool := (48 <=? c) && (c <=? 57).

Definition digits_value (negative : bool) (s : str) : option Z :=
  match scan_digits s with
  | (Nil, _) => None
  | (u, []) => Some (if negative then (- Z.of_uint u)%Z else Z.of_uint u)
  | (_, _ :: _) => None
  end.

(** The conversion of the signed decimal literals in ASCII digits, on
    which it agrees with the [int] of Python. *)
Definition decimal_int (s : str) : option Z :=
  match s with
  | c :: tl =>
      if c =? c_minus then digits_value true tl
      else if c =? 43 then digits_value false tl
      else digits_value false s
  | [] => None
  end.

(** The digits of a literal written with single underscores between its
    digits, as in [1_000]. *)
Fixpoint ungroup (after_digit : bool) (s : str) : option str :=
  match s with
  | [] => if after_digit then Some [] else None
  | c :: s' =>
      if ascii_isdecimal c then option_map (cons c) (ungroup true s')
      else if (c =? 95) && after_digit then ungroup false s'
      else None
  end.

(** The same conversion with the underscores [int] allows between the
    digits. *)
Definition grouped_int (s : str) : option Z :=
  match s with
  | c :: tl =>
      if c =? c_minus then
        match ungroup false tl with Some ds => digits_value true ds | None => None end
      else if c =? 43 then
        match ungroup false tl with Some ds => digits_value false ds | None => None end
      else
        match ungroup false s with Some ds => digits_value false ds | None => None end
  | [] => None
  end.

(** A system that answers every argument vector alike. *)
Definition always (c : child) : list str -> child := fun _ => c.

(** A team name with a quote, shell metacharacters, a space, letters
    outside ASCII and an undecodable byte. *)
Definition sample_team : str := [34; 36; 40; 32; 59; 39; 233; 128512; 56448].

Definition sample_args (n1 n24 m1 m24 : Z) (team : str) : Namespace :=
  {| count_1h := VInt n1; count_24h := VInt n24;
     minutes_1h := VInt m1; minutes_24h := VInt m24;
     team_name := VStr team |}.

(** ** The command lines that parse, in one pass *)

(** What the parser stores for a value joined to its flag: the bare [--]
    is dropped and leaves the empty list, any other string is converted. *)
Definition joined_value (py_int : str -> option Z) (ty : argtype) (e : str)
  : option value :=
  if str_eqb e (lit "--") then Some VEmptyList else converted py_int ty e.

(** The command lines that parse, read in one pass from the left: each
    argument is a flag with its value joined, or a flag followed by one
    argument; every value is stored under the attribute of its flag. *)
Fixpoint read_flags (isdecimal : char -> bool) (py_int : str -> option Z)
    (argv : list str) (ns : Namespace) : option Namespace :=
  match argv with
  | [] => Some ns
  | t :: rest =>
      match parse_optional isdecimal t with
      | Optional (Some (Store d ty _)) _ (Some e) =>
          match joined_value py_int ty e with
          | Some val => read_flags isdecimal py_int rest (setattr ns d val)
          | None => None
          end
      | Optional (Some (Store d ty _)) _ None =>
          match rest with
          | v :: rest' =>
              match parse_optional isdecimal v with
              | Positional =>
                  match converted py_int ty v with
                  | Some val => read_flags isdecimal py_int rest' (setattr ns d val)
                  | None => None
                  end
              | _ => None
              end
          | [] => None
          end
      | _ => None
      end
  end.

Definition unambiguous (isdecimal : char -> bool) (t : str) : Prop :=
  forall ms, parse_optional isdecimal t <> Ambiguous ms.

(** What follows does not start with an argument for the option before. *)
Definition starts_option (isdecimal : char -> bool) (rest : list str) : Prop :=
  match rest with
  | v :: _ => parse_optional isdecimal v <> Positional
  | [] => True
  end.

(** ** Types of the attributes *)

(** The type [add_argument] gives the attribute. *)
Definition type_of_dest (d : dest) : argtype :=
  match d with
  | TeamName => type_str
  | _ => type_int
  end.

Definition has_type (ty : argtype) (v : value) : bool :=
  match ty, v with
  | type_int, VInt _ => true
  | type_str, VStr _ => true
  | _, _ => false
  end.

(** Every attribute holds a value of its type. *)
Definition typed (ns : Namespace) : bool :=
  has_type type_int (count_1h ns) && has_type type_int (count_24h ns)
  && has_type type_int (minutes_1h ns) && has_type type_int (minutes_24h ns)
  && has_type type_str (team_name ns).

(** The lines a run prints itself, on either stream. *)
Fixpoint lines (tr : list event) : list str :=
  match tr with
  | Write _ (Line s) :: tr' => s :: lines tr'
  | _ :: tr' => lines tr'
  | [] => []
  end.

(** * Facts

    ** Strings and the option table *)

Lemma str_eqb_eq (s t : str) : str_eqb s t = true <-> s = t.
Proof.
  revert t; induction s as [|c s IH]; intros [|d t]; simpl; split; intro H;
    try reflexivity; try discriminate.
  - apply andb_true_iff in H as [Hc Hs]. apply N.eqb_eq in Hc. apply IH in Hs.
    now subst.
  - injection H as -> ->. rewrite N.eqb_refl. now apply IH.
Qed.

Lemma str_eqb_refl (s : str) : str_eqb s s = true.
Proof. now apply str_eqb_eq. Qed.

Lemma str_eqb_neq (s t : str) : str_eqb s t = false <-> s <> t.
Proof.
  split.
  - intros H E. apply str_eqb_eq in E. congruence.
  - intro H. destruct (str_eqb s t) eqn:E; [|reflexivity].
    apply str_eqb_eq in E. contradiction.
Qed.

Lemma lookup_action_In tbl s a :
  lookup_action tbl s = Some a -> In (s, a) tbl.
Proof.
  induction tbl as [|[o b] tbl IH]; simpl; [discriminate|].
  destruct (str_eqb s o) eqn:E.
  - apply str_eqb_eq in E. intros [= ->]. left. now subst.
  - intro H. right. now apply IH.
Qed.

(** ** The parser *)

Section ParserFacts.
Variable isdecimal : char -> bool.
Variable py_int : str -> option Z.

Lemma get_option_tuples_In s a o e :
  In (a, o, e) (get_option_tuples s) -> In (o, a) option_string_actions.
Proof.
  unfold get_option_tuples.
  destruct s as [|c0 [|c1 s]]; try (intros []).
  destruct ((c0 =? c_minus) && (c1 =? c_minus)).
  - destruct (split_first c_equals (c0 :: c1 :: s)) as [[p x]|];
      intro H; apply in_flat_map in H as [[o' a'] [Hin H]]; simpl in H;
      destruct (startswith o' _); simpl in H; try contradiction;
      destruct H as [H|[]]; injection H as <- <- <-; exact Hin.
  - destruct (c0 =? c_minus); [|intros []].
    intro H; apply in_flat_map in H as [[o' a'] [Hin H]]; simpl in H.
    destruct (str_eqb o' _); [|destruct (startswith o' _)]; simpl in H;
      try contradiction; destruct H as [H|[]]; injection H as <- <- <-; exact Hin.
Qed.

Lemma parse_optional_In s a o e :
  parse_optional isdecimal s = Optional (Some a) o e ->
  In (o, a) option_string_actions.
Proof.
  unfold parse_optional.
  destruct s as [|c0 tl]; [discriminate|].
  destruct (negb (c0 =? c_minus)); [discriminate|].
  destruct (lookup_action option_string_actions (c0 :: tl)) as [a0|] eqn:L.
  - intros [= <- <- <-]. now apply lookup_action_In.
  - destruct tl as [|c1 tl]; [discriminate|].
    destruct (split_first c_equals (c0 :: c1 :: tl)) as [[os ex]|].
    + destruct (lookup_action option_string_actions os) as [a1|] eqn:L1.
      * intros [= <- <- <-]. now apply lookup_action_In.
      * destruct (get_option_tuples (c0 :: c1 :: tl)) as [|[[a2 o2] e2] [|t2 ts]] eqn:G.
        -- destruct (negative_number_matcher _ _); [discriminate|].
           destruct (contains_char _ _); discriminate.
        -- intros [= <- <- <-]. apply (get_option_tuples_In (c0 :: c1 :: tl) a2 o2 e2).
           rewrite G. now left.
        -- discriminate.
    + destruct (get_option_tuples (c0 :: c1 :: tl)) as [|[[a2 o2] e2] [|t2 ts]] eqn:G.
      * destruct (negative_number_matcher _ _); [discriminate|].
        destruct (contains_char _ _); discriminate.
      * intros [= <- <- <-]. apply (get_option_tuples_In (c0 :: c1 :: tl) a2 o2 e2).
        rewrite G. now left.
      * discriminate.
Qed.


Lemma classify_app l1 l2 ps :
  ~ In (lit "--") l1 ->
  classify isdecimal (l1 ++ l2) = inr ps ->
  exists ps2, classify isdecimal l2 = inr ps2 /\ ps = map (cls isdecimal) l1 ++ ps2.
Proof.
  revert ps; induction l1 as [|s l1 IH]; intros ps Hno H; simpl in *.
  - now exists ps.
  - destruct (str_eqb s (lit "--")) eqn:E.
    + apply str_eqb_eq in E. exfalso. apply Hno. now left.
    + unfold cls at 1.
      destruct (parse_optional isdecimal s) as [|a o e|ms]; try discriminate;
        destruct (classify isdecimal (l1 ++ l2)) as [err|ps'] eqn:C;
        try discriminate; injection H as <-;
        destruct (IH ps') as [ps2 [H2 ->]]; auto; exists ps2; auto.
Qed.

Lemma classify_dash l ps :
  In (lit "--") l ->
  classify isdecimal l = inr ps ->
  exists l1 l2, ps = map (cls isdecimal) l1 ++ (lit "--", pDash) :: map arg_of l2.
Proof.
  revert ps; induction l as [|s l IH]; intros ps Hin H; simpl in *; [contradiction|].
  destruct (str_eqb s (lit "--")) eqn:E.
  - apply str_eqb_eq in E. subst s. injection H as <-. now exists [], l.
  - destruct Hin as [->|Hin]; [now rewrite str_eqb_refl in E|].
    destruct (parse_optional isdecimal s) as [|a o e|ms] eqn:P; try discriminate;
      destruct (classify isdecimal l) as [err|ps'] eqn:C; try discriminate;
      injection H as <-; destruct (IH ps' Hin eq_refl) as [l1 [l2 ->]];
      exists (s :: l1), l2; simpl; unfold cls at 2; now rewrite P.
Qed.

(** *** One option *)

Lemma explicit_loop_eq a o x sel acc :
  explicit_loop a o x sel acc =
  let single_dash :=
    match o with
    | _ :: c1 :: _ => negb (c1 =? c_minus)
    | _ => false
    end in
  match nargs a, x with
  | O, c :: new_explicit_arg =>
      if single_dash then
        match lookup_action option_string_actions [c_minus; c] with
        | Some a' =>
            let acc' := acc ++ [(a, [], o)] in
            match new_explicit_arg with
            | [] =>
                match match_argument a' sel with
                | Some n =>
                    inr (acc' ++ [(a', map fst (firstn n sel), [c_minus; c])], n)
                | None => inl (expected_one_argument a')
                end
            | _ :: _ => explicit_loop a' [c_minus; c] new_explicit_arg sel acc'
            end
        | None => inl (ignored_explicit_argument a x)
        end
      else inl (ignored_explicit_argument a x)
  | O, [] => inl (ignored_explicit_argument a x)
  | S O, _ => inr (acc ++ [(a, [x], o)], 0%nat)
  | _, _ => inl (ignored_explicit_argument a x)
  end.
Proof. destruct x; reflexivity. Qed.

Lemma explicit_loop_prefix a o x sel acc ts n :
  explicit_loop a o x sel acc = inr (ts, n) -> exists ts', ts = acc ++ ts'.
Proof.
  revert a o acc; induction x as [|c x IH]; intros a o acc;
    rewrite explicit_loop_eq; cbv zeta.
  - destruct (nargs a) as [|[|k]]; try discriminate.
    intros [= <- <-]. eauto.
  - destruct (nargs a) as [|[|k]]; try discriminate.
    + destruct (match o with _ :: c1 :: _ => negb (c1 =? c_minus) | _ => false end);
        [|discriminate].
      destruct (lookup_action option_string_actions [c_minus; c]) as [a'|]; [|discriminate].
      destruct x as [|c' x'].
      * destruct (match_argument a' sel); [|discriminate].
        intros [= <- <-]. rewrite <- app_assoc. eauto.
      * intro H. apply IH in H as [ts' ->]. rewrite <- app_assoc. eauto.
    + intros [= <- <-]. eauto.
Qed.

Lemma explicit_loop_help o x sel ts n :
  explicit_loop Help o x sel [] = inr (ts, n) ->
  exists ts', ts = (Help, [], o) :: ts'.
Proof.
  rewrite explicit_loop_eq; cbv zeta.
  change (nargs Help) with O.
  destruct x as [|c x]; [discriminate|].
  destruct (match o with _ :: c1 :: _ => negb (c1 =? c_minus) | _ => false end);
    [|discriminate].
  destruct (lookup_action option_string_actions [c_minus; c]) as [a'|]; [|discriminate].
  destruct x as [|c' x'].
  - destruct (match_argument a' sel); [|discriminate]. intros [= <- <-]. simpl. eauto.
  - intro H. apply explicit_loop_prefix in H as [ts' ->]. simpl. eauto.
Qed.

Lemma explicit_loop_store d ty dv o x sel :
  explicit_loop (Store d ty dv) o x sel [] = inr ([(Store d ty dv, [x], o)], 0%nat).
Proof. destruct x; reflexivity. Qed.

(** What [consume_optional] can come to: the help action leaves the
    program; a store action sets its attribute or is a usage error. *)
Lemma consume_optional_spec ns a o e sel :
  match consume_optional py_int ns a o e sel with
  | Left HelpExit => a = Help
  | Left (UsageError _) => True
  | Left (Parsed _) => False
  | Taken ns' n =>
      exists d ty dv v val,
        a = Store d ty dv /\ ns' = setattr ns d val /\
        get_values py_int a ty [v] = inr val /\
        (e = Some v /\ n = 0%nat \/
         e = None /\ n = 1%nat /\ exists rest, sel = (v, pA) :: rest)
  end.
Proof.
  unfold consume_optional.
  destruct a as [|d ty dv].
  - destruct e as [x|]; simpl.
    + destruct (explicit_loop Help o x sel []) as [err|[ts n]] eqn:E; [exact I|].
      apply explicit_loop_help in E as [ts' ->]. reflexivity.
    + reflexivity.
  - destruct e as [x|].
    + rewrite explicit_loop_store. simpl.
      destruct (get_values py_int (Store d ty dv) ty [x]) as [err|val] eqn:G; [exact I|].
      exists d, ty, dv, x, val. repeat split; auto.
    + simpl. destruct sel as [|[v [| |a' o' e']] rest]; try exact I.
      simpl.
      destruct (get_values py_int (Store d ty dv) ty [v]) as [err|val] eqn:G; [exact I|].
      exists d, ty, dv, v, val. repeat split; auto. right. eauto.
Qed.


(** *** The main loop *)

Lemma consume_args l ns ex :
  ex <> [] ->
  consume py_int (map arg_of l) ns ex = UsageError (unrecognized_arguments (ex ++ l)).
Proof.
  revert ex; induction l as [|s l IH]; intros ex Hex; simpl.
  - rewrite app_nil_r. destruct ex; [contradiction|reflexivity].
  - rewrite IH; [now rewrite <- app_assoc|]. now destruct ex.
Qed.

(** A prefix of the patterns is consumed on its own when what follows it
    does not start with an argument: the loop reaches the rest, or it has
    left through the help or a usage error before. *)
Lemma consume_app n : forall cpre, (List.length cpre <= n)%nat ->
  forall rest ns ex, head_not_arg rest ->
  (exists ns' ex', consume py_int (cpre ++ rest) ns ex = consume py_int rest ns' ex')
  \/ (consume py_int (cpre ++ rest) ns ex = HelpExit /\ existsb helpful cpre = true)
  \/ (exists e, consume py_int (cpre ++ rest) ns ex = UsageError e).
Proof.
  induction n as [|n IH]; intros cpre Hlen rest ns ex Hrest.
  - destruct cpre; [|simpl in Hlen; lia]. left. now exists ns, ex.
  - destruct cpre as [|[s p] tl]; [left; now exists ns, ex|].
    simpl in Hlen.
    assert (Hskip : forall ex0,
      (exists ns' ex', consume py_int (tl ++ rest) ns ex0 = consume py_int rest ns' ex')
      \/ (consume py_int (tl ++ rest) ns ex0 = HelpExit /\
          existsb helpful ((s, p) :: tl) = true)
      \/ (exists e, consume py_int (tl ++ rest) ns ex0 = UsageError e)).
    { intro ex0. destruct (IH tl ltac:(lia) rest ns ex0 Hrest) as [H|[[H1 H2]|H]]; auto.
      right; left. split; auto. simpl. rewrite H2. apply orb_true_r. }
    destruct p as [| |[a|] o e]; try apply Hskip.
    change (consume py_int (((s, pO (Some a) o e) :: tl) ++ rest) ns ex)
      with (match consume_optional py_int ns a o e (tl ++ rest) with
            | Left p => p
            | Taken ns' O => consume py_int (tl ++ rest) ns' ex
            | Taken ns' (S _) =>
                match tl ++ rest with
                | _ :: rest' => consume py_int rest' ns' ex
                | [] => Parsed ns'
                end
            end).
    pose proof (consume_optional_spec ns a o e (tl ++ rest)) as Hspec.
    destruct (consume_optional py_int ns a o e (tl ++ rest)) as [ns' k|[ns'| |err]].
    + destruct Hspec as (d & ty & dv & v & val & -> & -> & _ & [[_ ->]|(_ & -> & r & Hr)]).
      * destruct (IH tl ltac:(lia) rest (setattr ns d val) ex Hrest) as [H|[[H1 H2]|H]]; auto.
      * destruct tl as [|t tl'].
        -- simpl in Hr. subst rest. contradiction.
        -- simpl in Hr |- *. simpl in Hlen.
           destruct (IH tl' ltac:(lia) rest (setattr ns d val) ex Hrest) as [H|[[H1 H2]|H]]; auto.
           right; left. split; auto. rewrite H2. apply orb_true_r.
    + contradiction.
    + subst a. right; left. split; reflexivity.
    + right; right. now exists err.
Qed.

Lemma getattr_setattr_other ns d d' v :
  dest_eqb d d' = false -> getattr (setattr ns d' v) d = getattr ns d.
Proof. destruct d, d'; simpl; intro H; try reflexivity; discriminate. Qed.

Lemma getattr_setattr ns d v : getattr (setattr ns d v) d = v.
Proof. now destruct d. Qed.

(** An attribute that no option of the command line stores keeps its value. *)
Lemma consume_keeps d n : forall ps, (List.length ps <= n)%nat ->
  forall ns ex ns',
  forallb (fun sp => negb (stores d sp)) ps = true ->
  consume py_int ps ns ex = Parsed ns' ->
  getattr ns' d = getattr ns d.
Proof.
  induction n as [|n IH]; intros ps Hlen ns ex ns' Hno H.
  - destruct ps; [|simpl in Hlen; lia]. simpl in H. destruct ex; [|discriminate].
    now injection H as <-.
  - destruct ps as [|[s p] tl].
    { simpl in H. destruct ex; [|discriminate]. now injection H as <-. }
    simpl in Hlen. simpl in Hno. apply andb_true_iff in Hno as [Hp Hno].
    destruct p as [| |[a|] o e]; try (simpl in H; apply (IH tl ltac:(lia) _ _ _ Hno H)).
    change (consume py_int ((s, pO (Some a) o e) :: tl) ns ex)
      with (match consume_optional py_int ns a o e tl with
            | Left p => p
            | Taken ns' O => consume py_int tl ns' ex
            | Taken ns' (S _) =>
                match tl with
                | _ :: rest' => consume py_int rest' ns' ex
                | [] => Parsed ns'
                end
            end) in H.
    pose proof (consume_optional_spec ns a o e tl) as Hspec.
    destruct (consume_optional py_int ns a o e tl) as [ns1 k|[ns1| |err]];
      try discriminate; try contradiction.
    destruct Hspec as (d' & ty & dv & v & val & -> & -> & _ & [[_ ->]|(_ & -> & r & ->)]).
    + rewrite (IH tl ltac:(lia) _ _ _ Hno H).
      apply getattr_setattr_other. now apply negb_true_iff in Hp.
    + simpl in Hno. simpl in Hlen.
      rewrite (IH r ltac:(lia) _ _ _ Hno H).
      apply getattr_setattr_other. now apply negb_true_iff in Hp.
Qed.

End ParserFacts.

(** ** The JSON writer against the reader

    *** Escapes *)

Lemma hexval_hexdigit d : d < 16 -> hexval (hexdigit d) = Some d.
Proof.
  intro H. unfold hexdigit, hexval.
  destruct (d <? 10) eqn:E.
  - apply N.ltb_lt in E.
    replace ((48 <=? 48 + d) && (48 + d <=? 57)) with true.
    + f_equal. lia.
    + symmetry. apply andb_true_iff. split; apply N.leb_le; lia.
  - apply N.ltb_ge in E.
    replace ((48 <=? 87 + d) && (87 + d <=? 57)) with false.
    + replace ((97 <=? 87 + d) && (87 + d <=? 102)) with true.
      * f_equal. lia.
      * symmetry. apply andb_true_iff. split; apply N.leb_le; lia.
    + symmetry. apply andb_false_iff. right. apply N.leb_gt. lia.
Qed.

Lemma decode_format n h1 h2 h3 h4 :
  n < 65536 -> format_04x n = [h1; h2; h3; h4] ->
  decode_uXXXX h1 h2 h3 h4 = Some n.
Proof.
  intros Hn [= <- <- <- <-]. unfold decode_uXXXX.
  rewrite !hexval_hexdigit by (apply N.mod_lt; discriminate).
  f_equal.
  pose proof (N.div_mod n 16 ltac:(lia)).
  pose proof (N.div_mod (n / 16) 16 ltac:(lia)).
  pose proof (N.div_mod (n / 16 / 16) 16 ltac:(lia)).
  replace (n / 256) with (n / 16 / 16) by (rewrite N.Div0.div_div; reflexivity).
  replace (n / 4096) with (n / 16 / 16 / 16) by (rewrite !N.Div0.div_div; reflexivity).
  assert (n / 16 / 16 / 16 < 16).
  { do 3 apply N.Div0.div_lt_upper_bound. lia. }
  rewrite (N.mod_small (n / 16 / 16 / 16) 16) by assumption.
  lia.
Qed.

Lemma lor_low k lo : lo < 1024 -> N.lor (k * 1024) lo = k * 1024 + lo.
Proof.
  intro H.
  assert (HL : N.land (k * 1024) lo = 0).
  { apply N.bits_inj. intro i. rewrite N.land_spec, N.bits_0.
    change 1024 with (2 ^ 10) in *.
    destruct (N.lt_ge_cases i 10) as [Hi|Hi].
    - rewrite N.mul_pow2_bits_low by assumption. reflexivity.
    - destruct (N.eq_dec lo 0) as [->|Hz]; [now rewrite N.bits_0, andb_false_r|].
      rewrite (N.bits_above_log2 lo i), andb_false_r; [reflexivity|].
      apply N.log2_lt_pow2 in H; lia. }
  rewrite <- N.lxor_lor by assumption.
  symmetry. apply N.add_nocarry_lxor. assumption.
Qed.

Lemma surrogate_pair c :
  65536 <= c -> c < 1114112 ->
  let n := c - 65536 in
  let s1 := N.lor 55296 (N.land (N.shiftr n 10) 1023) in
  let s2 := N.lor 56320 (N.land n 1023) in
  s1 < 65536 /\ s2 < 65536 /\ is_high_surrogate s1 = true /\
  is_low_surrogate s2 = true /\
  65536 + N.lor (N.shiftl (s1 - 55296) 10) (s2 - 56320) = c.
Proof.
  intros Hlo Hhi n s1 s2.
  assert (Hn : n < 1048576) by (unfold n; lia).
  assert (Hq : n / 1024 < 1024) by (apply N.Div0.div_lt_upper_bound; lia).
  assert (Hr : n mod 1024 < 1024) by (apply N.mod_lt; discriminate).
  assert (E1 : N.land (N.shiftr n 10) 1023 = n / 1024).
  { rewrite N.shiftr_div_pow2. change 1023 with (N.ones 10).
    rewrite N.land_ones. change (2 ^ 10) with 1024. now apply N.mod_small. }
  assert (E2 : N.land n 1023 = n mod 1024).
  { change 1023 with (N.ones 10). now rewrite N.land_ones. }
  assert (S1 : s1 = 55296 + n / 1024).
  { unfold s1. rewrite E1. change 55296 with (54 * 1024). now apply lor_low. }
  assert (S2 : s2 = 56320 + n mod 1024).
  { unfold s2. rewrite E2. change 56320 with (55 * 1024). now apply lor_low. }
  repeat split.
  - lia.
  - lia.
  - unfold is_high_surrogate. apply andb_true_iff. split; apply N.leb_le; lia.
  - unfold is_low_surrogate. apply andb_true_iff. split; apply N.leb_le; lia.
  - replace (s1 - 55296) with (n / 1024) by lia.
    replace (s2 - 56320) with (n mod 1024) by lia.
    rewrite N.shiftl_mul_pow2. change (2 ^ 10) with 1024.
    rewrite lor_low by assumption.
    pose proof (N.div_mod n 1024 ltac:(discriminate)). unfold n in *. lia.
Qed.

Lemma scan_string_u h1 h2 h3 h4 s3 :
  scan_string (c_backslash :: 117 :: h1 :: h2 :: h3 :: h4 :: s3) =
  match decode_uXXXX h1 h2 h3 h4 with
  | None => None
  | Some uni =>
      match (if is_high_surrogate uni then low_escape s3 else None), s3 with
      | Some uni2, _ :: _ :: _ :: _ :: _ :: _ :: s4 =>
          push (65536 + N.lor (N.shiftl (uni - 55296) 10) (uni2 - 56320))
               (scan_string s4)
      | _, _ => push uni (scan_string s3)
      end
  end.
Proof. reflexivity. Qed.

Lemma scan_string_plain c rest :
  c <> c_quote -> c <> c_backslash -> 32 <= c ->
  scan_string (c :: rest) = push c (scan_string rest).
Proof.
  intros H1 H2 H3. simpl.
  apply N.eqb_neq in H1, H2. rewrite H1, H2.
  destruct (c <? 32) eqn:E; [apply N.ltb_lt in E; lia|reflexivity].
Qed.

Lemma scan_string_escape c rest :
  os_char c = true ->
  scan_string (escape_ascii c ++ rest) = push c (scan_string rest).
Proof.
  intro Hc. unfold os_char in Hc. apply andb_true_iff in Hc as [Hmax Hsur].
  apply N.ltb_lt in Hmax. apply negb_true_iff in Hsur.
  unfold escape_ascii.
  destruct (c =? c_backslash) eqn:E1; [apply N.eqb_eq in E1; subst; reflexivity|].
  destruct (c =? c_quote) eqn:E2; [apply N.eqb_eq in E2; subst; reflexivity|].
  destruct (c =? 8) eqn:E3; [apply N.eqb_eq in E3; subst; reflexivity|].
  destruct (c =? 12) eqn:E4; [apply N.eqb_eq in E4; subst; reflexivity|].
  destruct (c =? 10) eqn:E5; [apply N.eqb_eq in E5; subst; reflexivity|].
  destruct (c =? 13) eqn:E6; [apply N.eqb_eq in E6; subst; reflexivity|].
  destruct (c =? 9) eqn:E7; [apply N.eqb_eq in E7; subst; reflexivity|].
  apply N.eqb_neq in E1, E2.
  destruct ((32 <=? c) && (c <=? 126)) eqn:E8.
  - apply andb_true_iff in E8 as [E8 _]. apply N.leb_le in E8.
    now apply scan_string_plain.
  - destruct (c <? 65536) eqn:E9.
    + apply N.ltb_lt in E9.
      change (lit "\u" ++ format_04x c) with (c_backslash :: 117 :: format_04x c).
      unfold format_04x at 1. cbn [Datatypes.app].
      rewrite scan_string_u, (decode_format c) by (assumption || reflexivity).
      now rewrite Hsur.
    + apply N.ltb_ge in E9.
      destruct (surrogate_pair c E9 Hmax) as (B1 & B2 & H1 & H2 & H3).
      cbv zeta.
      set (s1 := N.lor 55296 (N.land (N.shiftr (c - 65536) 10) 1023)) in *.
      set (s2 := N.lor 56320 (N.land (c - 65536) 1023)) in *.
      change (lit "\u" ++ format_04x s1 ++ lit "\u" ++ format_04x s2)
        with (c_backslash :: 117 :: format_04x s1
                ++ c_backslash :: 117 :: format_04x s2).
      unfold format_04x. cbn [Datatypes.app].
      rewrite scan_string_u, (decode_format s1) by (assumption || reflexivity).
      rewrite H1. unfold low_escape.
      rewrite N.eqb_refl. cbn [andb N.eqb Pos.eqb].
      rewrite (decode_format s2) by (assumption || reflexivity).
      rewrite H2, H3. reflexivity.
Qed.

Lemma scan_string_encode s rest :
  forallb os_char s = true ->
  scan_string (flat_map escape_ascii s ++ c_quote :: rest) = Some (s, rest).
Proof.
  induction s as [|c s IH]; intro H; simpl in H.
  - reflexivity.
  - apply andb_true_iff in H as [Hc Hs].
    cbn [flat_map]. rewrite <- app_assoc, scan_string_escape, IH by assumption.
    reflexivity.
Qed.

(** *** Integers *)

Lemma scan_digits_uint u rest :
  ends_number rest = true -> scan_digits (uint_str u ++ rest) = (u, rest).
Proof.
  intro H. induction u; cbn [uint_str Datatypes.app];
    try (cbn [scan_digits]; cbn; now rewrite IHu).
  destruct rest as [|c rest]; [reflexivity|].
  simpl in H. apply orb_true_iff in H as [H|H]; apply N.eqb_eq in H; subst; reflexivity.
Qed.

Lemma to_uint_plain p :
  match Pos.to_uint p with
  | Nil => false
  | D0 Nil => true
  | D0 _ => false
  | _ => true
  end = true.
Proof.
  pose proof (DecimalPos.Unsigned.to_of (Pos.to_uint p)) as H.
  rewrite DecimalPos.Unsigned.of_to in H. change (N.to_uint (N.pos p)) with (Pos.to_uint p) in H.
  unfold unorm in H.
  destruct (nzhead (Pos.to_uint p)) eqn:E; try (rewrite H; reflexivity).
  exfalso. exact (DecimalFacts.nzhead_nonzero _ _ E).
Qed.

Lemma uint_str_head u rest :
  u <> Nil -> exists c tl, uint_str u ++ rest = c :: tl /\ 48 <= c <= 57.
Proof.
  destruct u; [contradiction| ..]; intros _; cbn [uint_str Datatypes.app];
    eexists; eexists; (split; [reflexivity|lia]).
Qed.

Lemma scan_number_uint negative p rest :
  ends_number rest = true ->
  scan_number negative (uint_str (Pos.to_uint p) ++ rest) =
  Some (if negative then Z.neg p else Z.pos p, rest).
Proof.
  intro H. unfold scan_number. rewrite scan_digits_uint by assumption.
  rewrite to_uint_plain.
  assert (E : Z.of_uint (Pos.to_uint p) = Z.pos p).
  { unfold Z.of_uint. now rewrite DecimalPos.Unsigned.of_to. }
  rewrite E.
  destruct rest as [|c rest]; [now destruct negative|].
  simpl in H. apply orb_true_iff in H as [H|H]; apply N.eqb_eq in H; subst;
    now destruct negative.
Qed.

Lemma scan_int_repr z rest :
  ends_number rest = true -> scan_int (repr_int z ++ rest) = Some (z, rest).
Proof.
  intro H. unfold repr_int. destruct z as [|p|p]; cbn [Z.to_int].
  - destruct rest as [|c rest]; [reflexivity|].
    simpl in H. apply orb_true_iff in H as [H|H]; apply N.eqb_eq in H; subst; reflexivity.
  - destruct (uint_str_head (Pos.to_uint p) rest (DecimalPos.Unsigned.to_uint_nonnil p))
      as (c & tl & E & Hc).
    unfold scan_int. rewrite E.
    replace (c =? c_minus) with false by (symmetry; apply N.eqb_neq; unfold c_minus; lia).
    rewrite <- E. now apply scan_number_uint.
  - cbn [Datatypes.app]. unfold scan_int. rewrite N.eqb_refl.
    now apply scan_number_uint.
Qed.

Lemma repr_int_head z rest :
  exists c tl, repr_int z ++ rest = c :: tl /\ (c = c_minus \/ 48 <= c <= 57).
Proof.
  unfold repr_int. destruct z as [|p|p]; cbn [Z.to_int].
  - exists 48, rest. split; [reflexivity|lia].
  - destruct (uint_str_head (Pos.to_uint p) rest (DecimalPos.Unsigned.to_uint_nonnil p))
      as (c & tl & E & Hc). exists c, tl. auto.
  - eexists; eexists. split; [reflexivity|now left].
Qed.

(** *** Values, members, objects *)

Lemma scan_value_encode v rest :
  wf_value v = true -> ends_number rest = true ->
  scan_value (encode_value v ++ rest) = Some (v, rest) /\
  skip_ws (encode_value v ++ rest) = encode_value v ++ rest.
Proof.
  intros Hv Hr. destruct v as [z|s|]; cbn [encode_value].
  - destruct (repr_int_head z rest) as (c & tl & E & Hc).
    split.
    + unfold scan_value. rewrite E.
      replace (c =? c_quote) with false
        by (symmetry; apply N.eqb_neq; unfold c_quote, c_minus in *; lia).
      replace (c =? 91) with false
        by (symmetry; apply N.eqb_neq; unfold c_minus in *; lia).
      rewrite <- E, scan_int_repr by assumption. reflexivity.
    + rewrite E. cbn [skip_ws]. unfold is_ws.
      replace (c =? 32) with false by (symmetry; apply N.eqb_neq; unfold c_minus in *; lia).
      replace (c =? 9) with false by (symmetry; apply N.eqb_neq; unfold c_minus in *; lia).
      replace (c =? 10) with false by (symmetry; apply N.eqb_neq; unfold c_minus in *; lia).
      replace (c =? 13) with false by (symmetry; apply N.eqb_neq; unfold c_minus in *; lia).
      reflexivity.
  - split; [|reflexivity].
    unfold encode_basestring_ascii. cbn [Datatypes.app scan_value].
    rewrite N.eqb_refl, <- app_assoc. cbn [Datatypes.app].
    now rewrite scan_string_encode.
  - split; reflexivity.
Qed.

Lemma scan_members_space fuel s : scan_members fuel (32 :: s) = scan_members fuel s.
Proof. destruct fuel; reflexivity. Qed.

Lemma scan_item k v rest fuel :
  forallb os_char k = true -> wf_value v = true -> ends_number rest = true ->
  scan_members (S fuel) (encode_item (k, v) ++ rest) =
  match rest with
  | d :: s5 =>
      if d =? 44 then
        match scan_members fuel s5 with
        | Some (kvs, rest') => Some ((k, v) :: kvs, rest')
        | None => None
        end
      else if d =? 125 then Some ([(k, v)], s5)
      else None
  | [] => None
  end.
Proof.
  intros Hk Hv Hr.
  unfold encode_item, encode_basestring_ascii. cbn [fst snd].
  rewrite <- !app_assoc. cbn [Datatypes.app].
  rewrite <- !app_assoc. cbn [Datatypes.app].
  cbn [scan_members skip_ws]. change (is_ws c_quote) with false. cbv iota.
  rewrite N.eqb_refl.
  change (lit ": " ++ encode_value v ++ rest) with (58 :: 32 :: encode_value v ++ rest).
  rewrite scan_string_encode by assumption.
  cbn [skip_ws]. change (is_ws 58) with false. cbv iota.
  change (58 =? 58) with true. cbv iota.
  change (skip_ws (32 :: encode_value v ++ rest)) with (skip_ws (encode_value v ++ rest)).
  destruct (scan_value_encode v rest Hv Hr) as [E1 E2].
  rewrite E2, E1.
  destruct rest as [|d s5]; [reflexivity|].
  simpl in Hr. apply orb_true_iff in Hr as [H|H]; apply N.eqb_eq in H; subst; reflexivity.
Qed.

Lemma scan_members_encode d : forall fuel rest,
  d <> [] -> forallb wf_item d = true -> (List.length d <= fuel)%nat ->
  scan_members fuel (join (lit ", ") (map encode_item d) ++ 125 :: rest) = Some (d, rest).
Proof.
  induction d as [|[k v] d IH]; intros fuel rest Hne Hwf Hfuel; [contradiction|].
  simpl in Hwf. apply andb_true_iff in Hwf as [Hkv Hwf].
  unfold wf_item in Hkv. apply andb_true_iff in Hkv as [Hk Hv]. cbn [fst snd] in *.
  destruct fuel as [|fuel]; [simpl in Hfuel; lia|]. simpl in Hfuel.
  destruct d as [|kv' d'].
  - cbn [map join]. now rewrite scan_item.
  - change (join (lit ", ") (map encode_item ((k, v) :: kv' :: d')))
      with (encode_item (k, v) ++ 44 :: 32 :: join (lit ", ") (map encode_item (kv' :: d'))).
    rewrite <- app_assoc. cbn [Datatypes.app].
    rewrite scan_item by auto. change (44 =? 44) with true. cbv iota.
    rewrite scan_members_space, IH; auto; [discriminate|lia].
Qed.

Lemma join_length d :
  (List.length d <= List.length (join (lit ", ") (map encode_item d)))%nat.
Proof.
  induction d as [|kv d IH]; [apply Nat.le_0_l|].
  destruct d as [|kv' d'].
  - cbn [map join]. unfold encode_item, encode_basestring_ascii.
    cbn [Datatypes.app List.length]. lia.
  - change (join (lit ", ") (map encode_item (kv :: kv' :: d')))
      with (encode_item kv ++ 44 :: 32 :: join (lit ", ") (map encode_item (kv' :: d'))).
    rewrite length_app. cbn [List.length] in *. lia.
Qed.

Theorem json_loads_dumps d :
  forallb wf_item d = true -> json_loads (json_dumps d) = Some d.
Proof.
  intro Hwf. destruct d as [|kv d]; [reflexivity|].
  unfold json_dumps, json_loads.
  change (lit "{" ++ join (lit ", ") (map encode_item (kv :: d)) ++ lit "}")
    with (123 :: join (lit ", ") (map encode_item (kv :: d)) ++ [125]).
  cbn [skip_ws]. change (is_ws 123) with false. cbv iota.
  change (123 =? 123) with true. cbv iota.
  assert (Hhead : exists tl,
    join (lit ", ") (map encode_item (kv :: d)) ++ [125] = c_quote :: tl).
  { destruct d; cbn [map join]; unfold encode_item, encode_basestring_ascii;
      cbn [Datatypes.app]; eauto. }
  destruct Hhead as [tl Htl].
  rewrite Htl at 1. cbn [skip_ws]. change (is_ws c_quote) with false. cbv iota.
  change (c_quote =? 125) with false. cbv iota.
  rewrite scan_members_encode; [reflexivity|discriminate|assumption|].
  cbn [List.length]. rewrite length_app. pose proof (join_length (kv :: d)).
  cbn [List.length] in *. lia.
Qed.

(** ** The text of the payload is plain ASCII *)

Lemma printable_hexdigit d : d < 16 -> printable (hexdigit d) = true.
Proof.
  intro H. unfold printable, hexdigit. destruct (d <? 10) eqn:E;
    apply andb_true_iff; split; apply N.leb_le;
    try apply N.ltb_lt in E; try apply N.ltb_ge in E; lia.
Qed.

Lemma printable_format n : forallb printable (format_04x n) = true.
Proof.
  unfold format_04x. cbn [forallb].
  rewrite !printable_hexdigit by (apply N.mod_lt; discriminate). reflexivity.
Qed.

Lemma printable_escape c : forallb printable (escape_ascii c) = true.
Proof.
  unfold escape_ascii.
  repeat match goal with
         | |- forallb printable (if ?b then _ else _) = true =>
             destruct b eqn:?; [try reflexivity|]
         end.
  - cbn [forallb]. unfold printable.
    match goal with H : (32 <=? c) && _ = true |- _ => now rewrite H end.
  - change (lit "\u" ++ format_04x c) with (92 :: 117 :: format_04x c).
    cbn [forallb]. now rewrite printable_format.
  - cbv zeta. rewrite !forallb_app, !printable_format. reflexivity.
Qed.

Lemma printable_string s : forallb printable (encode_basestring_ascii s) = true.
Proof.
  unfold encode_basestring_ascii. cbn [forallb]. rewrite forallb_app.
  cbn [forallb]. change (printable c_quote) with true. rewrite andb_true_r. cbn [andb].
  induction s as [|c s IH]; [reflexivity|].
  cbn [flat_map]. now rewrite forallb_app, printable_escape.
Qed.

Lemma printable_uint u : forallb printable (uint_str u) = true.
Proof. induction u; cbn [uint_str forallb]; try rewrite IHu; reflexivity. Qed.

Lemma printable_value v : forallb printable (encode_value v) = true.
Proof.
  destruct v as [z|s|]; cbn [encode_value].
  - unfold repr_int. destruct (Z.to_int z); cbn [forallb]; now rewrite printable_uint.
  - apply printable_string.
  - reflexivity.
Qed.

Lemma printable_join d : forallb printable (join (lit ", ") (map encode_item d)) = true.
Proof.
  assert (Hitem : forall kv, forallb printable (encode_item kv) = true).
  { intros [k v]. unfold encode_item. cbn [fst snd].
    now rewrite !forallb_app, printable_string, printable_value. }
  induction d as [|kv d IH]; [reflexivity|].
  destruct d as [|kv' d'].
  - cbn [map join]. apply Hitem.
  - change (join (lit ", ") (map encode_item (kv :: kv' :: d')))
      with (encode_item kv ++ 44 :: 32 :: join (lit ", ") (map encode_item (kv' :: d'))).
    rewrite forallb_app, Hitem. cbn [forallb andb]. exact IH.
Qed.

(** With [ensure_ascii], the text [json.dumps] returns is plain ASCII. *)
Lemma printable_dumps d : forallb printable (json_dumps d) = true.
Proof.
  unfold json_dumps. now rewrite !forallb_app, printable_join.
Qed.

(** ** From the command line to the namespace *)

Section Facts.
Variable isdecimal : char -> bool.
Variable py_int : str -> option Z.

Local Notation "'parse'" := (parse_args isdecimal py_int).

Lemma dash_not_parsed argv ns : parse argv = Parsed ns -> ~ In (lit "--") argv.
Proof.
  unfold parse_args. intros H Hin.
  destruct (classify isdecimal argv) as [err|ps] eqn:C; [discriminate|].
  destruct (classify_dash isdecimal argv ps Hin C) as (l1 & l2 & ->).
  destruct (consume_app py_int _ (map (cls isdecimal) l1) (Nat.le_refl _)
              ((lit "--", pDash) :: map arg_of l2) default_namespace [] I)
    as [(ns' & ex' & E)|[[E _]|[e E]]]; rewrite E in H; try discriminate.
  cbn [consume] in H. rewrite consume_args in H; [discriminate|]. now destruct ex'.
Qed.

Lemma parsed_patterns argv ns :
  parse argv = Parsed ns ->
  consume py_int (map (cls isdecimal) argv) default_namespace [] = Parsed ns.
Proof.
  intro H. pose proof (dash_not_parsed argv ns H) as Hno.
  unfold parse_args in H.
  destruct (classify isdecimal argv) as [err|ps] eqn:C; [discriminate|].
  rewrite <- (app_nil_r argv) in C.
  apply classify_app in C as (ps2 & C2 & ->); [|assumption].
  injection C2 as <-. now rewrite app_nil_r in H.
Qed.



(** Each flag of the table is an option of the parser; it stores the
    attribute that the payload puts under the flag's field. *)
Lemma flag_field_dest flag key ty :
  In (flag, key, ty) flag_fields ->
  exists d dv,
    parse_optional isdecimal flag = Optional (Some (Store d ty dv)) flag None /\
    (forall ns, dict_get key (payload ns) = Some (getattr ns d)) /\
    (forall o ty' dv', In (o, Store d ty' dv') option_string_actions -> o = flag).
Proof.
  intro H. simpl in H.
  destruct H as [H|[H|[H|[H|[H|[]]]]]]; injection H as <- <- <-.
  - exists Count1h, (VInt 2). split; [reflexivity|]. split; [reflexivity|].
    intros o ty' dv' H. simpl in H.
    repeat (destruct H as [H|H]; [try discriminate; now injection H|]). contradiction.
  - exists Count24h, (VInt 2). split; [reflexivity|]. split; [reflexivity|].
    intros o ty' dv' H. simpl in H.
    repeat (destruct H as [H|H]; [try discriminate; now injection H|]). contradiction.
  - exists Minutes1h, (VInt 65). split; [reflexivity|]. split; [reflexivity|].
    intros o ty' dv' H. simpl in H.
    repeat (destruct H as [H|H]; [try discriminate; now injection H|]). contradiction.
  - exists Minutes24h, (VInt (24 * 60 + 10)). split; [reflexivity|]. split; [reflexivity|].
    intros o ty' dv' H. simpl in H.
    repeat (destruct H as [H|H]; [try discriminate; now injection H|]). contradiction.
  - exists TeamName, (VStr (lit "Seed Team")). split; [reflexivity|]. split; [reflexivity|].
    intros o ty' dv' H. simpl in H.
    repeat (destruct H as [H|H]; [try discriminate; now injection H|]). contradiction.
Qed.

Lemma not_named_not_stored flag d l :
  (forall o ty' dv', In (o, Store d ty' dv') option_string_actions -> o = flag) ->
  (forall t, In t l -> names_option isdecimal flag t = false) ->
  forallb (fun sp => negb (stores d sp)) (map (cls isdecimal) l) = true.
Proof.
  intros Hflag Hno. apply forallb_forall. intros sp Hin.
  apply in_map_iff in Hin as (t & <- & Hin).
  specialize (Hno t Hin). unfold names_option in Hno. unfold cls, stores. cbn [snd].
  destruct (parse_optional isdecimal t) as [|[[|d' ty' dv']|] o e|ms] eqn:P; try reflexivity.
  apply parse_optional_In in P. apply negb_true_iff.
  destruct d, d'; try reflexivity; apply Hflag in P; subst o;
    now rewrite str_eqb_refl in Hno.
Qed.

Lemma consume_step_store s d ty dv o sel ns ex ns' :
  consume py_int ((s, pO (Some (Store d ty dv)) o None) :: sel) ns ex = Parsed ns' ->
  exists v rest val,
    sel = (v, pA) :: rest /\
    get_values py_int (Store d ty dv) ty [v] = inr val /\
    consume py_int rest (setattr ns d val) ex = Parsed ns'.
Proof.
  change (consume py_int ((s, pO (Some (Store d ty dv)) o None) :: sel) ns ex)
    with (match consume_optional py_int ns (Store d ty dv) o None sel with
          | Left p => p
          | Taken ns' O => consume py_int sel ns' ex
          | Taken ns' (S _) =>
              match sel with
              | _ :: rest' => consume py_int rest' ns' ex
              | [] => Parsed ns'
              end
          end).
  pose proof (consume_optional_spec py_int ns (Store d ty dv) o None sel) as Hspec.
  destruct (consume_optional py_int ns (Store d ty dv) o None sel) as [ns1 k|[ns1| |err]];
    try discriminate; try contradiction.
  destruct Hspec as (d' & ty' & dv' & v & val & E & -> & G & [[E' _]|(_ & -> & r & ->)]);
    [discriminate|].
  injection E as <- <- <-. intro H. exists v, r, val. auto.
Qed.



(** A flag that does not occur leaves its attribute at the default. *)
Lemma flag_default flag key dv argv ns :
  In (flag, key, dv) flag_defaults ->
  parse argv = Parsed ns ->
  (forall t, In t argv -> names_option isdecimal flag t = false) ->
  dict_get key (payload ns) = Some dv.
Proof.
  intros Hflag Hparse Hno.
  assert (exists ty, In (flag, key, ty) flag_fields /\
                     forall d, (forall ns0, dict_get key (payload ns0) = Some (getattr ns0 d)) ->
                               getattr default_namespace d = dv) as (ty & Hf & Hd).
  { simpl in Hflag.
    destruct Hflag as [H|[H|[H|[H|[H|[]]]]]]; injection H as <- <- <-;
      [exists type_int|exists type_int|exists type_int|exists type_int|exists type_str];
      (split; [simpl; tauto|]);
      intros d Hd; specialize (Hd default_namespace);
      destruct d; simpl in Hd; try discriminate; reflexivity. }
  destruct (flag_field_dest flag key ty Hf) as (d & dv' & _ & Hkey & Honly).
  apply parsed_patterns in Hparse.
  rewrite Hkey.
  rewrite (consume_keeps py_int d _ _ (Nat.le_refl _) _ _ _
             (not_named_not_stored flag d argv Honly Hno) Hparse).
  f_equal. now apply Hd.
Qed.


Lemma split_at_dash (l : list str) :
  In (lit "--") l ->
  exists l1 l2, l = l1 ++ lit "--" :: l2 /\ ~ In (lit "--") l1.
Proof.
  induction l as [|s l IH]; [intros []|].
  intro H. destruct (str_eqb s (lit "--")) eqn:E.
  - apply str_eqb_eq in E. subst s. now exists [], l.
  - apply str_eqb_neq in E. destruct H as [H|H]; [congruence|].
    destruct (IH H) as (l1 & l2 & -> & Hno). exists (s :: l1), l2. split; [reflexivity|].
    intros [H'|H']; [congruence|contradiction].
Qed.

Lemma In_dash_dec (l : list str) : {In (lit "--") l} + {~ In (lit "--") l}.
Proof. apply in_dec. apply list_eq_dec. apply N.eq_dec. Qed.

Lemma helpful_asks l :
  existsb helpful (map (cls isdecimal) l) = true ->
  exists t, In t l /\ asks_help isdecimal t = true.
Proof.
  intro H. apply existsb_exists in H as (sp & Hin & Hh).
  apply in_map_iff in Hin as (t & <- & Hin). exists t. split; [assumption|].
  unfold helpful, cls in Hh. cbn [snd] in Hh. unfold asks_help.
  now destruct (parse_optional isdecimal t) as [|[[|]|]|].
Qed.

(** A store action of type [int] whose argument is missing or does not
    convert ends the parse with a usage error. *)
Lemma consume_store_bad s d dv o sel ns ex :
  (forall v rest, sel = (v, pA) :: rest -> v <> lit "--" /\ py_int v = None) ->
  exists e, consume py_int ((s, pO (Some (Store d type_int dv)) o None) :: sel) ns ex
            = UsageError e.
Proof.
  intro Hbad.
  change (consume py_int ((s, pO (Some (Store d type_int dv)) o None) :: sel) ns ex)
    with (match consume_optional py_int ns (Store d type_int dv) o None sel with
          | Left p => p
          | Taken ns' O => consume py_int sel ns' ex
          | Taken ns' (S _) =>
              match sel with
              | _ :: rest' => consume py_int rest' ns' ex
              | [] => Parsed ns'
              end
          end).
  pose proof (consume_optional_spec py_int ns (Store d type_int dv) o None sel) as Hspec.
  destruct (consume_optional py_int ns (Store d type_int dv) o None sel)
    as [ns1 k|[ns1| |err]]; try discriminate; try contradiction; [|eauto].
  exfalso.
  destruct Hspec as (d' & ty' & dv' & v & val & E & _ & G & [[E' _]|(_ & _ & r & Hsel)]);
    [discriminate|].
  injection E as <- <- <-.
  destruct (Hbad v r Hsel) as [Hv Hint].
  unfold get_values in G. cbn [remove_first] in G.
  apply str_eqb_neq in Hv. rewrite Hv in G. unfold get_value in G.
  now rewrite Hint in G.
Qed.

Lemma classify_optional s a o e rest :
  str_eqb s (lit "--") = false ->
  parse_optional isdecimal s = Optional a o e ->
  classify isdecimal (s :: rest) =
  match classify isdecimal rest with
  | inl err => inl err
  | inr ps => inr ((s, pO a o e) :: ps)
  end.
Proof. intros H1 H2. cbn [classify]. now rewrite H1, H2. Qed.

(** An integer flag followed by a string that is no integer: the parse
    ends with a usage error, unless the help was asked for before. *)
Lemma bad_int_value flag key pre v post :
  In (flag, key, type_int) flag_fields ->
  py_int v = None ->
  (exists e, parse (pre ++ flag :: v :: post) = UsageError e)
  \/ (parse (pre ++ flag :: v :: post) = HelpExit /\
      exists t, In t pre /\ asks_help isdecimal t = true).
Proof.
  intros Hflag Hint.
  destruct (flag_field_dest flag key type_int Hflag) as (d & dv & Hopt & _ & _).
  assert (Hfd : str_eqb flag (lit "--") = false).
  { simpl in Hflag.
    destruct Hflag as [H|[H|[H|[H|[H|[]]]]]]; injection H as <- <-; reflexivity. }
  unfold parse_args.
  destruct (classify isdecimal (pre ++ flag :: v :: post)) as [err|ps] eqn:C; [eauto|].
  destruct (In_dash_dec pre) as [Hin|Hno].
  - destruct (split_at_dash pre Hin) as (p1 & p2 & -> & Hno).
    rewrite <- app_assoc in C.
    apply classify_app in C as (ps2 & C2 & ->); [|assumption].
    cbn [Datatypes.app classify] in C2. rewrite str_eqb_refl in C2. injection C2 as <-.
    destruct (consume_app py_int _ (map (cls isdecimal) p1) (Nat.le_refl _)
                ((lit "--", pDash) :: map (fun s => (s, pA)) (p2 ++ flag :: v :: post))
                default_namespace [] I)
      as [(ns1 & ex1 & E)|[[E Hh]|[e E]]]; rewrite E.
    + cbn [consume]. left. eexists. apply (consume_args py_int). now destruct ex1.
    + right. split; [reflexivity|].
      apply helpful_asks in Hh as (t & Ht & Hask). exists t. split; [|assumption].
      apply in_or_app. now left.
    + eauto.
  - apply classify_app in C as (ps2 & C2 & ->); [|assumption].
    rewrite (classify_optional _ _ _ _ _ Hfd Hopt) in C2.
    destruct (classify isdecimal (v :: post)) as [err|ps3] eqn:C3; [discriminate|].
    injection C2 as <-.
    destruct (consume_app py_int _ (map (cls isdecimal) pre) (Nat.le_refl _)
                ((flag, pO (Some (Store d type_int dv)) flag None) :: ps3)
                default_namespace [] I)
      as [(ns1 & ex1 & E)|[[E Hh]|[e E]]]; rewrite E.
    + left. apply consume_store_bad. intros v' rest ->.
      cbn [classify] in C3. destruct (str_eqb v (lit "--")) eqn:Ev; [discriminate|].
      apply str_eqb_neq in Ev.
      destruct (parse_optional isdecimal v); try discriminate;
        destruct (classify isdecimal post); try discriminate;
        injection C3 as <- _; try discriminate; auto.
    + right. split; [reflexivity|]. now apply helpful_asks.
    + eauto.
Qed.


(** *** Strings from the command line stay what they are *)

Lemma split_first_forallb (P : char -> bool) c s l r :
  split_first c s = Some (l, r) -> forallb P s = true -> forallb P r = true.
Proof.
  revert l; induction s as [|d s IH]; intros l; simpl; [discriminate|].
  destruct (d =? c).
  - intros [= <- <-] H. now apply andb_true_iff in H as [_ H].
  - destruct (split_first c s) as [[l' r']|]; [|discriminate].
    intros [= <- <-] H. apply andb_true_iff in H as [_ H]. now apply (IH l').
Qed.

Lemma skipn_forallb (P : char -> bool) n s :
  forallb P s = true -> forallb P (skipn n s) = true.
Proof.
  revert s; induction n as [|n IH]; intros [|c s] H; simpl; auto.
  simpl in H. apply andb_true_iff in H as [_ H]. now apply IH.
Qed.

Lemma get_option_tuples_wf s a o e :
  In (a, o, Some e) (get_option_tuples s) ->
  forallb os_char s = true -> forallb os_char e = true.
Proof.
  unfold get_option_tuples.
  destruct s as [|c0 [|c1 s]]; try (intros []).
  destruct ((c0 =? c_minus) && (c1 =? c_minus)).
  - destruct (split_first c_equals (c0 :: c1 :: s)) as [[p x]|] eqn:S;
      intro H; apply in_flat_map in H as [[o' a'] [Hin H]]; cbn [fst snd] in H;
      destruct (startswith o' _); simpl in H; try contradiction;
      destruct H as [H|[]]; try discriminate; injection H as <- <- <-.
    now apply (split_first_forallb _ _ _ _ _ S).
  - destruct (c0 =? c_minus); [|intros []].
    intro H; apply in_flat_map in H as [[o' a'] [Hin H]]; cbn [fst snd] in H.
    destruct (str_eqb o' _); [|destruct (startswith o' _)]; simpl in H;
      try contradiction; destruct H as [H|[]]; try discriminate.
    injection H as <- <- <-. intro Hs.
    now apply (skipn_forallb os_char 2 (c0 :: c1 :: s)).
Qed.

Lemma cls_wf t : forallb os_char t = true -> wf_pattern (cls isdecimal t) = true.
Proof.
  intro Ht. unfold wf_pattern, cls. cbn [fst snd]. rewrite Ht. cbn [andb].
  destruct (parse_optional isdecimal t) as [|a o [e|]|ms] eqn:P; try reflexivity.
  revert P. unfold parse_optional.
  destruct t as [|c0 tl]; [discriminate|].
  destruct (negb (c0 =? c_minus)); [discriminate|].
  destruct (lookup_action option_string_actions (c0 :: tl)) as [a0|]; [discriminate|].
  destruct tl as [|c1 tl]; [discriminate|].
  assert (Htuples :
    match get_option_tuples (c0 :: c1 :: tl) with
    | (_ :: _ :: _) as ts => Ambiguous (map (fun t => snd (fst t)) ts)
    | [(a1, option_string, explicit_arg)] => Optional (Some a1) option_string explicit_arg
    | [] =>
        if negative_number_matcher isdecimal (c0 :: c1 :: tl) then Positional
        else if contains_char c_space (c0 :: c1 :: tl) then Positional
        else Optional None (c0 :: c1 :: tl) None
    end = Optional a o (Some e) -> forallb os_char e = true).
  { destruct (get_option_tuples (c0 :: c1 :: tl)) as [|[[a2 o2] e2] [|t2 ts]] eqn:G.
    - destruct (negative_number_matcher _ _); [discriminate|].
      destruct (contains_char _ _); discriminate.
    - intros [= <- <- ->]. apply (get_option_tuples_wf (c0 :: c1 :: tl) a2 o2 e); [|assumption].
      rewrite G. now left.
    - discriminate. }
  destruct (split_first c_equals (c0 :: c1 :: tl)) as [[os ex]|] eqn:S; [|exact Htuples].
  destruct (lookup_action option_string_actions os) as [a1|]; [|exact Htuples].
  intros [= <- <- <-]. now apply (split_first_forallb _ _ _ _ _ S).
Qed.

Lemma get_values_wf a ty v val :
  forallb os_char v = true ->
  get_values py_int a ty [v] = inr val -> wf_value val = true.
Proof.
  intro Hv. unfold get_values. cbn [remove_first].
  destruct (str_eqb v (lit "--")); [now intros [= <-]|].
  unfold get_value. destruct ty.
  - destruct (py_int v); [|discriminate]. now intros [= <-].
  - now intros [= <-].
Qed.

Lemma wf_setattr ns d val :
  wf_namespace ns = true -> wf_value val = true -> wf_namespace (setattr ns d val) = true.
Proof.
  unfold wf_namespace. intros H Hv.
  repeat (apply andb_true_iff in H as [H ?]).
  destruct d; cbn [setattr count_1h count_24h minutes_1h minutes_24h team_name];
    repeat (apply andb_true_iff; split); assumption.
Qed.

Lemma consume_wf n : forall ps, (List.length ps <= n)%nat ->
  forall ns ex ns',
  forallb wf_pattern ps = true -> wf_namespace ns = true ->
  consume py_int ps ns ex = Parsed ns' -> wf_namespace ns' = true.
Proof.
  induction n as [|n IH]; intros ps Hlen ns ex ns' Hps Hns H.
  - destruct ps; [|simpl in Hlen; lia]. simpl in H. destruct ex; [|discriminate].
    now injection H as <-.
  - destruct ps as [|[s p] tl].
    { simpl in H. destruct ex; [|discriminate]. now injection H as <-. }
    simpl in Hlen. cbn [forallb] in Hps. apply andb_true_iff in Hps as [Hp Hps].
    destruct p as [| |[a|] o e]; try (simpl in H; apply (IH tl ltac:(lia) _ _ _ Hps Hns H)).
    change (consume py_int ((s, pO (Some a) o e) :: tl) ns ex)
      with (match consume_optional py_int ns a o e tl with
            | Left p => p
            | Taken ns' O => consume py_int tl ns' ex
            | Taken ns' (S _) =>
                match tl with
                | _ :: rest' => consume py_int rest' ns' ex
                | [] => Parsed ns'
                end
            end) in H.
    pose proof (consume_optional_spec py_int ns a o e tl) as Hspec.
    destruct (consume_optional py_int ns a o e tl) as [ns1 k|[ns1| |err]];
      try discriminate; try contradiction.
    destruct Hspec as (d' & ty & dv & v & val & -> & -> & G & [[-> ->]|(-> & -> & r & ->)]).
    + apply (IH tl ltac:(lia) _ _ _ Hps) in H; [assumption|].
      apply wf_setattr; [assumption|].
      unfold wf_pattern in Hp. cbn [fst snd] in Hp. apply andb_true_iff in Hp as [_ Hp].
      now apply (get_values_wf _ _ _ _ Hp G).
    + cbn [forallb] in Hps. apply andb_true_iff in Hps as [Hv Hps]. simpl in Hlen.
      apply (IH r ltac:(lia) _ _ _ Hps) in H; [assumption|].
      apply wf_setattr; [assumption|].
      unfold wf_pattern in Hv. cbn [fst snd] in Hv. apply andb_true_iff in Hv as [Hv _].
      now apply (get_values_wf _ _ _ _ Hv G).
Qed.

(** The strings of the namespace come from the command line or from the
    defaults. *)
Lemma parsed_wf argv ns :
  forallb (forallb os_char) argv = true ->
  parse argv = Parsed ns -> wf_namespace ns = true.
Proof.
  intros Hargv H. apply parsed_patterns in H.
  apply (consume_wf _ _ (Nat.le_refl _) _ _ _) in H; [assumption| |reflexivity].
  apply forallb_forall. intros sp Hin. apply in_map_iff in Hin as (t & <- & Hin).
  apply cls_wf. now apply (proj1 (forallb_forall _ _) Hargv).
Qed.

(** *** A flag with its value *)

Lemma consume_store_ok s d ty dv o v rest ns ex val :
  get_values py_int (Store d ty dv) ty [v] = inr val ->
  consume py_int ((s, pO (Some (Store d ty dv)) o None) :: (v, pA) :: rest) ns ex =
  consume py_int rest (setattr ns d val) ex.
Proof.
  intro G. cbn [consume]. unfold consume_optional.
  cbn [match_argument firstn map fst take_actions take_action].
  now rewrite G.
Qed.

Lemma consume_store_joined s d ty dv o v rest ns ex :
  consume py_int ((s, pO (Some (Store d ty dv)) o (Some v)) :: rest) ns ex =
  match get_values py_int (Store d ty dv) ty [v] with
  | inl e => UsageError e
  | inr val => consume py_int rest (setattr ns d val) ex
  end.
Proof.
  cbn [consume]. unfold consume_optional. rewrite explicit_loop_store.
  cbn [take_actions take_action].
  now destruct (get_values py_int (Store d ty dv) ty [v]).
Qed.

(** The flag joined to its value by an equals sign is the option of the
    flag with that value as its explicit argument. *)
Lemma parse_optional_joined flag key ty v :
  In (flag, key, ty) flag_fields ->
  exists d dv,
    parse_optional isdecimal (flag ++ c_equals :: v)
      = Optional (Some (Store d ty dv)) flag (Some v) /\
    (forall ns, dict_get key (payload ns) = Some (getattr ns d)).
Proof.
  intro H. simpl in H.
  destruct H as [H|[H|[H|[H|[H|[]]]]]]; injection H as <- <- <-.
  - exists Count1h, (VInt 2). split; reflexivity.
  - exists Count24h, (VInt 2). split; reflexivity.
  - exists Minutes1h, (VInt 65). split; reflexivity.
  - exists Minutes24h, (VInt (24 * 60 + 10)). split; reflexivity.
  - exists TeamName, (VStr (lit "Seed Team")). split; reflexivity.
Qed.

Lemma joined_not_dash flag key ty v :
  In (flag, key, ty) flag_fields -> str_eqb (flag ++ c_equals :: v) (lit "--") = false.
Proof.
  intro H. simpl in H.
  destruct H as [H|[H|[H|[H|[H|[]]]]]]; injection H as <- <- <-; reflexivity.
Qed.

(** The integer flag joined to a string that is no integer: the same
    usage error, the bare [--] apart, which the parser drops. *)
Lemma bad_int_joined flag key pre v post :
  In (flag, key, type_int) flag_fields ->
  py_int v = None -> v <> lit "--" ->
  (exists e, parse (pre ++ (flag ++ c_equals :: v) :: post) = UsageError e)
  \/ (parse (pre ++ (flag ++ c_equals :: v) :: post) = HelpExit /\
      exists t, In t pre /\ asks_help isdecimal t = true).
Proof.
  intros Hflag Hint Hv.
  destruct (parse_optional_joined flag key type_int v Hflag) as (d & dv & Hopt & _).
  pose proof (joined_not_dash flag key type_int v Hflag) as Hfd.
  assert (Hbad : forall rest ns ex,
    exists e, consume py_int ((flag ++ c_equals :: v,
                               pO (Some (Store d type_int dv)) flag (Some v)) :: rest) ns ex
              = UsageError e).
  { intros rest ns ex. rewrite consume_store_joined.
    unfold get_values. cbn [remove_first].
    apply str_eqb_neq in Hv. rewrite Hv. unfold get_value. rewrite Hint. eauto. }
  unfold parse_args.
  destruct (classify isdecimal (pre ++ (flag ++ c_equals :: v) :: post)) as [err|ps] eqn:C;
    [eauto|].
  destruct (In_dash_dec pre) as [Hin|Hno].
  - destruct (split_at_dash pre Hin) as (p1 & p2 & -> & Hno).
    rewrite <- app_assoc in C.
    apply classify_app in C as (ps2 & C2 & ->); [|assumption].
    cbn [Datatypes.app classify] in C2. rewrite str_eqb_refl in C2. injection C2 as <-.
    destruct (consume_app py_int _ (map (cls isdecimal) p1) (Nat.le_refl _)
                ((lit "--", pDash)
                   :: map (fun s => (s, pA)) (p2 ++ (flag ++ c_equals :: v) :: post))
                default_namespace [] I)
      as [(ns1 & ex1 & E)|[[E Hh]|[e E]]]; rewrite E.
    + cbn [consume]. left. eexists. apply (consume_args py_int). now destruct ex1.
    + right. split; [reflexivity|].
      apply helpful_asks in Hh as (t & Ht & Hask). exists t. split; [|assumption].
      apply in_or_app. now left.
    + eauto.
  - apply classify_app in C as (ps2 & C2 & ->); [|assumption].
    rewrite (classify_optional _ _ _ _ _ Hfd Hopt) in C2.
    destruct (classify isdecimal post) as [err|ps3] eqn:C3; [discriminate|].
    injection C2 as <-.
    destruct (consume_app py_int _ (map (cls isdecimal) pre) (Nat.le_refl _)
                ((flag ++ c_equals :: v, pO (Some (Store d type_int dv)) flag (Some v))
                   :: ps3)
                default_namespace [] I)
      as [(ns1 & ex1 & E)|[[E Hh]|[e E]]].
    + left. destruct (Hbad ps3 ns1 ex1) as [e He]. exists e.
      etransitivity; [exact E|exact He].
    + right. split; [exact E|]. now apply helpful_asks.
    + left. exists e. exact E.
Qed.

End Facts.

(** ** The runs of the program *)

Section Runs.
Variable isdecimal : char -> bool.
Variable py_int : str -> option Z.
Variable os : list str -> child.

Local Notation "'parse'" := (parse_args isdecimal py_int).
Local Notation "'run'" := (script isdecimal py_int os).

(** The runs of the program, by the way the parse ends and by what the
    system answers. *)
Lemma main_parsed argv ns :
  parse argv = Parsed ns ->
  main isdecimal py_int os argv =
  match os (cmd ns) with
  | NotStarted e => ([running ns; Popen (cmd ns)], inl (LaunchError e))
  | Completed rc =>
      if (rc =? 0)%Z
      then ([running ns; Popen (cmd ns); Wait rc], inr 0%Z)
      else ([running ns; Popen (cmd ns); Wait rc;
             Write stderr (Line (seed_failed rc))], inr rc)
  end.
Proof.
  intro H. unfold main, parse_args_exit. rewrite H.
  unfold subprocess_run, print, emit, ret, raise, bind, try_except.
  destruct (os (cmd ns)) as [rc|e]; [|reflexivity].
  destruct (rc =? 0)%Z; reflexivity.
Qed.

Lemma run_parsed argv ns :
  parse argv = Parsed ns ->
  run argv =
  match os (cmd ns) with
  | NotStarted e =>
      ([running ns; Popen (cmd ns); Write stderr (Traceback (LaunchError e))], 1%Z)
  | Completed rc =>
      if (rc =? 0)%Z
      then ([running ns; Popen (cmd ns); Wait rc], 0%Z)
      else ([running ns; Popen (cmd ns); Wait rc;
             Write stderr (Line (seed_failed rc))], exit_status rc)
  end.
Proof.
  intro H. unfold script. rewrite (main_parsed argv ns H).
  destruct (os (cmd ns)) as [rc|e]; [|reflexivity].
  destruct (rc =? 0)%Z; reflexivity.
Qed.

Lemma popens_parsed argv ns :
  parse argv = Parsed ns -> popens (fst (run argv)) = [cmd ns].
Proof.
  intro H. rewrite (run_parsed _ _ H).
  destruct (os (cmd ns)) as [rc|e]; [|reflexivity].
  destruct (rc =? 0)%Z; reflexivity.
Qed.

Lemma run_help argv :
  parse argv = HelpExit -> run argv = ([Write stdout HelpText], 0%Z).
Proof. intro H. unfold script, main, parse_args_exit. now rewrite H. Qed.

Lemma run_usage argv e :
  parse argv = UsageError e -> run argv = ([Write stderr (UsageText e)], 2%Z).
Proof. intro H. unfold script, main, parse_args_exit. now rewrite H. Qed.

Lemma exit_status_byte n : (0 <= n < 256)%Z -> exit_status n = n.
Proof.
  intro H. unfold exit_status. change 255%Z with (Z.ones 8).
  rewrite Z.land_ones by lia. apply Z.mod_small. exact H.
Qed.

End Runs.

(** ** The ASCII digits *)

Lemma ascii_digit_cases d :
  ascii_isdecimal d = true ->
  d = 48 \/ d = 49 \/ d = 50 \/ d = 51 \/ d = 52 \/
  d = 53 \/ d = 54 \/ d = 55 \/ d = 56 \/ d = 57.
Proof.
  intro Hd. unfold ascii_isdecimal in Hd. apply andb_true_iff in Hd as [H1 H2].
  apply N.leb_le in H1, H2. lia.
Qed.

Lemma lookup_action_digit d l :
  ascii_isdecimal d = true ->
  lookup_action option_string_actions (c_minus :: d :: l) = None.
Proof.
  intro Hd. apply ascii_digit_cases in Hd.
  repeat (destruct Hd as [->|Hd]; [reflexivity|]). subst d. reflexivity.
Qed.

Lemma get_option_tuples_digit d l :
  ascii_isdecimal d = true -> get_option_tuples (c_minus :: d :: l) = [].
Proof.
  intro Hd. apply ascii_digit_cases in Hd.
  repeat (destruct Hd as [->|Hd]; [reflexivity|]). subst d. reflexivity.
Qed.

Lemma digits_then_end_all seen ds :
  forallb ascii_isdecimal ds = true ->
  digits_then_end ascii_isdecimal seen ds = match ds with [] => seen | _ => true end.
Proof.
  revert seen; induction ds as [|d ds IH]; intros seen H; [reflexivity|].
  simpl in H. apply andb_true_iff in H as [Hd Hds].
  cbn [digits_then_end]. rewrite Hd, IH by assumption. now destruct ds.
Qed.

(** A minus sign followed by digits is an argument for the parser, not an
    option. *)
Lemma minus_digits_positional ds :
  ds <> [] -> forallb ascii_isdecimal ds = true ->
  parse_optional ascii_isdecimal (c_minus :: ds) = Positional.
Proof.
  intros Hne Hds. destruct ds as [|d ds]; [contradiction|].
  pose proof Hds as Hall. simpl in Hds. apply andb_true_iff in Hds as [Hd _].
  unfold parse_optional. change (negb (c_minus =? c_minus)) with false. cbv iota.
  rewrite lookup_action_digit by assumption.
  rewrite get_option_tuples_digit by assumption.
  assert (Hneg : negative_number_matcher ascii_isdecimal (c_minus :: d :: ds) = true).
  { unfold negative_number_matcher. rewrite N.eqb_refl.
    now rewrite (digits_then_end_all false (d :: ds) Hall). }
  rewrite Hneg.
  destruct (split_first c_equals (c_minus :: d :: ds)) as [[os ex]|] eqn:S; [|reflexivity].
  assert (exists l, os = c_minus :: d :: l) as [l ->].
  { cbn [split_first] in S. change (c_minus =? c_equals) with false in S. cbv iota in S.
    replace (d =? c_equals) with false in S.
    - destruct (split_first c_equals ds) as [[l r]|]; [|discriminate].
      injection S as <- _. now exists l.
    - symmetry. unfold ascii_isdecimal in Hd. apply andb_true_iff in Hd as [H1 H2].
      apply N.leb_le in H1, H2. apply N.eqb_neq. unfold c_equals. lia. }
  now rewrite lookup_action_digit.
Qed.

(** * The properties of the specification *)

Section Claims.

Variable isdecimal : char -> bool.
Variable py_int : str -> option Z.
Variable os : list str -> child.

Local Notation "'parse'" := (parse_args isdecimal py_int).
Local Notation "'run'" := (script isdecimal py_int os).


(** C2.  When the child runs and ends with a return code [n] other than
    zero, the program writes one line to standard error, the line
    [Seed failed (exit n).], starts no other child, and [main] returns
    [n], which is the exit status of the program for the codes a child
    can exit with. *)
Theorem child_failure argv ns n :
  parse argv = Parsed ns ->
  os (cmd ns) = Completed n ->
  n <> 0%Z ->
  writes stderr (fst (run argv)) =
    [Line (lit "Seed failed (exit " ++ repr_int n ++ lit ").")] /\
  popens (fst (run argv)) = [cmd ns] /\
  waits (fst (run argv)) = [n] /\
  snd (main isdecimal py_int os argv) = inr n /\
  ((0 < n < 256)%Z -> snd (run argv) = n).
Proof.
  intros Hparse Hos Hn.
  rewrite (run_parsed _ _ _ _ _ Hparse), (main_parsed _ _ _ _ _ Hparse), Hos.
  apply Z.eqb_neq in Hn. rewrite Hn.
  repeat split; try reflexivity.
  intro Hbyte. cbn [snd]. apply exit_status_byte. lia.
Qed.

(** C3.  When the command line parses, the command is the argument vector
    [npx convex run internal.reminders.seedRemindersTestData] followed by
    the serialized payload, and the run first prints that command line
    after [Running:] on standard output and then starts the child, once. *)
Theorem command_line argv ns :
  parse argv = Parsed ns ->
  let c := [lit "npx"; lit "convex"; lit "run";
            lit "internal.reminders.seedRemindersTestData";
            json_dumps (payload ns)] in
  exists tl,
    fst (run argv) =
      Write stdout (Line (lit "Running: " ++ join (lit " ") c)) :: Popen c :: tl /\
    popens tl = [] /\ writes stdout tl = [].
Proof.
  intros Hparse c. rewrite (run_parsed _ _ _ _ _ Hparse).
  destruct (os (cmd ns)) as [rc|e].
  - destruct (rc =? 0)%Z; eexists; repeat split; reflexivity.
  - eexists; repeat split; reflexivity.
Qed.

(** C4.  Without any flag the payload is
    [count1h: 2, count24h: 2, minutesFromNowFor1h: 65,
    minutesFromNowFor24h: 1450, reuseTeamName: Seed Team]; and on any
    command line that parses, a flag that is not given leaves its field
    at that default, whatever the other flags are. *)
Theorem flag_defaults_hold :
  (exists ns0,
     parse [] = Parsed ns0 /\
     payload ns0 =
       [ (lit "count1h", VInt 2);
         (lit "count24h", VInt 2);
         (lit "minutesFromNowFor1h", VInt 65);
         (lit "minutesFromNowFor24h", VInt 1450);
         (lit "reuseTeamName", VStr (lit "Seed Team")) ]) /\
  (forall flag key dv argv ns,
     In (flag, key, dv) flag_defaults ->
     parse argv = Parsed ns ->
     (forall t, In t argv -> names_option isdecimal flag t = false) ->
     dict_get key (payload ns) = Some dv).
Proof.
  split.
  - exists default_namespace. split; reflexivity.
  - intros flag key dv argv ns. apply flag_default.
Qed.

(** C5, as amended.  When an integer flag is given a string that [int]
    rejects, as the next argument or joined to the flag by an equals sign
    (the bare [--] joined to the flag apart), no child is started; and
    unless an argument before the flag asks for the help, the program
    writes a usage error to standard error and exits with status 2. *)
Theorem bad_integer flag key pre v post argv :
  In (flag, key, type_int) flag_fields ->
  py_int v = None ->
  argv = pre ++ flag :: v :: post \/
  (argv = pre ++ (flag ++ c_equals :: v) :: post /\ v <> lit "--") ->
  popens (fst (run argv)) = [] /\
  ((forall t, In t pre -> asks_help isdecimal t = false) ->
   exists e, run argv = ([Write stderr (UsageText e)], 2%Z)).
Proof.
  intros Hflag Hint Hargv.
  assert (H : (exists e, parse argv = UsageError e)
              \/ (parse argv = HelpExit /\
                  exists t, In t pre /\ asks_help isdecimal t = true)).
  { destruct Hargv as [->|[-> Hv]].
    - now apply (bad_int_value isdecimal py_int flag key).
    - now apply (bad_int_joined isdecimal py_int flag key). }
  destruct H as [[e E]|[E (t & Ht & Hask)]].
  - rewrite (run_usage _ _ _ _ _ E). split; [reflexivity|]. intros _. now exists e.
  - rewrite (run_help _ _ _ _ E). split; [reflexivity|].
    intro Hno. rewrite (Hno t Ht) in Hask. discriminate.
Qed.

(** C6.  When the tool cannot be started, [main] does not return: the
    error of the launch reaches the top of the program, which reports it
    with a traceback on standard error and exits with status 1; no return
    code of a child is involved. *)
Theorem launch_failure argv ns e :
  parse argv = Parsed ns ->
  os (cmd ns) = NotStarted e ->
  snd (main isdecimal py_int os argv) = inl (LaunchError e) /\
  snd (run argv) = 1%Z /\
  writes stderr (fst (run argv)) = [Traceback (LaunchError e)] /\
  waits (fst (run argv)) = [].
Proof.
  intros Hparse Hos.
  rewrite (run_parsed _ _ _ _ _ Hparse), (main_parsed _ _ _ _ _ Hparse), Hos.
  repeat split; reflexivity.
Qed.

(** C7.  When the child ends with return code 0, the program exits with
    status 0 and writes nothing to standard error. *)
Theorem child_success argv ns :
  parse argv = Parsed ns ->
  os (cmd ns) = Completed 0 ->
  snd (run argv) = 0%Z /\
  snd (main isdecimal py_int os argv) = inr 0%Z /\
  writes stderr (fst (run argv)) = [].
Proof.
  intros Hparse Hos.
  rewrite (run_parsed _ _ _ _ _ Hparse), (main_parsed _ _ _ _ _ Hparse), Hos.
  repeat split; reflexivity.
Qed.

(** C8, as amended.  A run starts one child when the command line parses
    and none when the parse ends in the help or a usage error, so never a
    second one; and the start of a child is followed at once by the
    collection of its return code (or, when it could not be started, by
    the traceback alone): the program does nothing in between. *)
Theorem one_child_at_most argv :
  match parse argv with
  | Parsed ns => popens (fst (run argv)) = [cmd ns]
  | _ => popens (fst (run argv)) = []
  end /\
  (forall before c after,
     fst (run argv) = before ++ Popen c :: after ->
     match os c with
     | Completed rc => exists after', after = Wait rc :: after'
     | NotStarted e => after = [Write stderr (Traceback (LaunchError e))]
     end).
Proof.
  destruct (parse argv) as [ns| |e] eqn:Hparse.
  - split; [now apply popens_parsed|].
    intros before c after. rewrite (run_parsed _ _ _ _ _ Hparse).
    destruct (os (cmd ns)) as [rc|e] eqn:Hos; [destruct (rc =? 0)%Z|];
      cbn [fst]; intro H;
      destruct before as [|e1 [|e2 [|e3 [|e4 [|e5 before]]]]];
      try discriminate; injection H as <- <-; rewrite Hos; eauto.
  - split; [now rewrite (run_help _ _ _ _ Hparse)|].
    intros before c after. rewrite (run_help _ _ _ _ Hparse). cbn [fst].
    intro H. destruct before as [|e1 [|e2 before]]; discriminate.
  - split; [now rewrite (run_usage _ _ _ _ _ Hparse)|].
    intros before c after. rewrite (run_usage _ _ _ _ _ Hparse). cbn [fst].
    intro H. destruct before as [|e1 [|e2 before]]; discriminate.
Qed.


(** C10, as amended.  The integer flags take any integer, zero and the
    negative ones included: whatever string [int] accepts, the flag joined
    to the string by an equals sign parses, and so does the flag followed
    by the string when the parser takes the string for an argument; either
    way the payload holds the integer under the field of the flag.  When
    the parser takes the string for an option, the flag followed by the
    string is a usage error.  ([int] does not accept the bare [--].) *)
Theorem no_range_validation flag key v z :
  In (flag, key, type_int) flag_fields ->
  py_int (lit "--") = None ->
  py_int v = Some z ->
  (exists ns, parse [flag ++ c_equals :: v] = Parsed ns /\
              dict_get key (payload ns) = Some (VInt z)) /\
  (parse_optional isdecimal v = Positional ->
   exists ns, parse [flag; v] = Parsed ns /\
              dict_get key (payload ns) = Some (VInt z)) /\
  (parse_optional isdecimal v <> Positional ->
   exists e, run [flag; v] = ([Write stderr (UsageText e)], 2%Z)).
Proof.
  intros Hflag Hdash Hint.
  assert (Hvd : str_eqb v (lit "--") = false).
  { apply str_eqb_neq. intros ->. congruence. }
  assert (Hval : forall a, get_values py_int a type_int [v] = inr (VInt z)).
  { intro a. unfold get_values. cbn [remove_first]. rewrite Hvd. unfold get_value.
    now rewrite Hint. }
  assert (Hfd : str_eqb flag (lit "--") = false).
  { simpl in Hflag.
    destruct Hflag as [H|[H|[H|[H|[H|[]]]]]]; injection H as <- <-; reflexivity. }
  split; [|split].
  - destruct (parse_optional_joined isdecimal flag key type_int v Hflag)
      as (d & dv & Hopt & Hkey).
    exists (setattr default_namespace d (VInt z)). split.
    + unfold parse_args.
      rewrite (classify_optional _ _ _ _ _ _
                 (joined_not_dash flag key type_int v Hflag) Hopt).
      cbn [classify]. now rewrite consume_store_joined, Hval.
    + now rewrite Hkey, getattr_setattr.
  - intro Hpos.
    destruct (flag_field_dest isdecimal flag key type_int Hflag)
      as (d & dv & Hopt & Hkey & _).
    exists (setattr default_namespace d (VInt z)). split.
    + unfold parse_args. rewrite (classify_optional _ _ _ _ _ _ Hfd Hopt).
      cbn [classify]. rewrite Hvd, Hpos.
      now rewrite (consume_store_ok _ _ _ _ _ _ _ _ _ _ (VInt z) (Hval _)).
    + now rewrite Hkey, getattr_setattr.
  - intro Hopt'.
    destruct (flag_field_dest isdecimal flag key type_int Hflag)
      as (d & dv & Hopt & _ & _).
    assert (E : exists e, parse [flag; v] = UsageError e).
    { unfold parse_args. rewrite (classify_optional _ _ _ _ _ _ Hfd Hopt).
      cbn [classify]. rewrite Hvd.
      destruct (parse_optional isdecimal v) as [|a o e|ms]; [congruence| |eauto].
      apply (consume_store_bad py_int). intros v' rest H. discriminate H. }
    destruct E as [e E]. exists e. now apply run_usage.
Qed.

End Claims.

(** * Runs on a sample system

    The parameters are instantiated with the ASCII digits, the conversion
    of decimal literals and a system that answers every command alike. *)

(** The examples of the module's documentation. *)
Example counts_given :
  parse_args ascii_isdecimal decimal_int
    [lit "--count-1h"; lit "5"; lit "--count-24h"; lit "5"]
  = Parsed (sample_args 5 5 65 1450 (lit "Seed Team")).
Proof. vm_compute. reflexivity. Qed.

Example minutes_given :
  parse_args ascii_isdecimal decimal_int
    [lit "--minutes-1h"; lit "70"; lit "--minutes-24h"; lit "1450"]
  = Parsed (sample_args 2 2 70 1450 (lit "Seed Team")).
Proof. vm_compute. reflexivity. Qed.


Lemma child_failure_witness :
  writes stderr (fst (script ascii_isdecimal decimal_int (always (Completed 3)) [])) =
    [Line (lit "Seed failed (exit " ++ repr_int 3 ++ lit ").")] /\
  popens (fst (script ascii_isdecimal decimal_int (always (Completed 3)) [])) =
    [cmd default_namespace] /\
  waits (fst (script ascii_isdecimal decimal_int (always (Completed 3)) [])) = [3%Z] /\
  snd (main ascii_isdecimal decimal_int (always (Completed 3)) []) = inr 3%Z /\
  snd (script ascii_isdecimal decimal_int (always (Completed 3)) []) = 3%Z.
Proof.
  destruct (child_failure ascii_isdecimal decimal_int (always (Completed 3)) []
              default_namespace 3%Z)
    as (Hw & Hp & Hr & Hm & Hs).
  - reflexivity.
  - reflexivity.
  - discriminate.
  - exact (conj Hw (conj Hp (conj Hr (conj Hm (Hs ltac:(lia)))))).
Defined.

Lemma command_line_witness :
  exists tl,
    fst (script ascii_isdecimal decimal_int (always (Completed 0)) []) =
      Write stdout
        (Line (lit "Running: " ++
               join (lit " ")
                 [lit "npx"; lit "convex"; lit "run";
                  lit "internal.reminders.seedRemindersTestData";
                  json_dumps (payload default_namespace)]))
      :: Popen [lit "npx"; lit "convex"; lit "run";
                lit "internal.reminders.seedRemindersTestData";
                json_dumps (payload default_namespace)]
      :: tl /\
    popens tl = [] /\ writes stdout tl = [].
Proof.
  apply (command_line ascii_isdecimal decimal_int (always (Completed 0)) []
           default_namespace).
  reflexivity.
Defined.

Lemma flag_defaults_hold_witness :
  dict_get (lit "minutesFromNowFor24h")
    (payload (sample_args 5 2 65 1450 (lit "Seed Team"))) = Some (VInt 1450).
Proof.
  apply (proj2 (flag_defaults_hold ascii_isdecimal decimal_int)
           (lit "--minutes-24h") (lit "minutesFromNowFor24h") (VInt 1450)
           [lit "--count-1h"; lit "5"] (sample_args 5 2 65 1450 (lit "Seed Team"))).
  - do 3 right. left. reflexivity.
  - vm_compute. reflexivity.
  - intros t [<-|[<-|[]]]; vm_compute; reflexivity.
Defined.

Lemma bad_integer_witness :
  (exists e,
     script ascii_isdecimal decimal_int (always (Completed 0))
       ([lit "--team-name"; lit "x"] ++ lit "--count-1h" :: lit "abc" :: [lit "-h"])
     = ([Write stderr (UsageText e)], 2%Z)) /\
  (exists e,
     script ascii_isdecimal decimal_int (always (Completed 0))
       ([lit "--team-name"; lit "x"]
          ++ (lit "--count-1h" ++ c_equals :: lit "abc") :: [lit "-h"])
     = ([Write stderr (UsageText e)], 2%Z)).
Proof.
  split.
  - apply (proj2 (bad_integer ascii_isdecimal decimal_int (always (Completed 0))
                    (lit "--count-1h") (lit "count1h")
                    [lit "--team-name"; lit "x"] (lit "abc") [lit "-h"]
                    ([lit "--team-name"; lit "x"]
                       ++ lit "--count-1h" :: lit "abc" :: [lit "-h"])
                    ltac:(left; reflexivity) ltac:(reflexivity)
                    ltac:(left; reflexivity))).
    intros t [<-|[<-|[]]]; vm_compute; reflexivity.
  - apply (proj2 (bad_integer ascii_isdecimal decimal_int (always (Completed 0))
                    (lit "--count-1h") (lit "count1h")
                    [lit "--team-name"; lit "x"] (lit "abc") [lit "-h"]
                    ([lit "--team-name"; lit "x"]
                       ++ (lit "--count-1h" ++ c_equals :: lit "abc") :: [lit "-h"])
                    ltac:(left; reflexivity) ltac:(reflexivity)
                    ltac:(right; split; [reflexivity|intro H; vm_compute in H; discriminate H]))).
    intros t [<-|[<-|[]]]; vm_compute; reflexivity.
Defined.

Lemma launch_failure_witness :
  snd (main ascii_isdecimal decimal_int (always (NotStarted FileNotFoundError)) []) =
    inl (LaunchError FileNotFoundError) /\
  snd (script ascii_isdecimal decimal_int (always (NotStarted FileNotFoundError)) []) = 1%Z /\
  writes stderr
    (fst (script ascii_isdecimal decimal_int (always (NotStarted FileNotFoundError)) [])) =
    [Traceback (LaunchError FileNotFoundError)] /\
  waits (fst (script ascii_isdecimal decimal_int (always (NotStarted FileNotFoundError)) []))
    = [].
Proof.
  apply (launch_failure ascii_isdecimal decimal_int (always (NotStarted FileNotFoundError))
           [] default_namespace FileNotFoundError).
  - reflexivity.
  - reflexivity.
Defined.

Lemma child_success_witness :
  snd (script ascii_isdecimal decimal_int (always (Completed 0)) []) = 0%Z /\
  snd (main ascii_isdecimal decimal_int (always (Completed 0)) []) = inr 0%Z /\
  writes stderr (fst (script ascii_isdecimal decimal_int (always (Completed 0)) [])) = [].
Proof.
  apply (child_success ascii_isdecimal decimal_int (always (Completed 0)) []
           default_namespace).
  - reflexivity.
  - reflexivity.
Defined.

Lemma one_child_at_most_witness :
  exists after', [Wait 0] = Wait 0 :: after'.
Proof.
  apply (proj2 (one_child_at_most ascii_isdecimal decimal_int (always (Completed 0)) [])
           [running default_namespace] (cmd default_namespace) [Wait 0%Z]).
  vm_compute. reflexivity.
Defined.


Lemma no_range_validation_witness :
  (exists ns,
     parse_args ascii_isdecimal decimal_int [lit "--minutes-1h" ++ c_equals :: lit "-90"]
       = Parsed ns /\
     dict_get (lit "minutesFromNowFor1h") (payload ns) = Some (VInt (-90))) /\
  (exists ns,
     parse_args ascii_isdecimal decimal_int [lit "--minutes-1h"; lit "-90"] = Parsed ns /\
     dict_get (lit "minutesFromNowFor1h") (payload ns) = Some (VInt (-90))) /\
  (exists e,
     script ascii_isdecimal grouped_int (always (Completed 0))
       [lit "--minutes-1h"; lit "-1_000"]
     = ([Write stderr (UsageText e)], 2%Z)).
Proof.
  destruct (no_range_validation ascii_isdecimal decimal_int (always (Completed 0))
              (lit "--minutes-1h") (lit "minutesFromNowFor1h") (lit "-90") (-90)%Z)
    as (Hjoined & Hnext & _).
  - do 2 right. left. reflexivity.
  - vm_compute. reflexivity.
  - vm_compute. reflexivity.
  - destruct (no_range_validation ascii_isdecimal grouped_int (always (Completed 0))
                (lit "--minutes-1h") (lit "minutesFromNowFor1h")
                (lit "-1_000") (-1000)%Z)
      as (_ & _ & Hoption).
    + do 2 right. left. reflexivity.
    + vm_compute. reflexivity.
    + vm_compute. reflexivity.
    + split; [exact Hjoined|]. split.
      * apply Hnext. vm_compute. reflexivity.
      * apply Hoption. vm_compute. discriminate.
Defined.

(** Zero is taken like any other integer. *)
Example zero_count :
  parse_args ascii_isdecimal decimal_int [lit "--count-24h"; lit "0"]
  = Parsed (sample_args 2 0 65 1450 (lit "Seed Team")).
Proof. vm_compute. reflexivity. Qed.

(** The bare [--] joined to a flag is dropped by the parser of
    CPython 3.11, which stores the empty list. *)
Example joined_double_dash :
  parse_args ascii_isdecimal decimal_int [lit "--count-1h=--"]
  = Parsed (setattr default_namespace Count1h VEmptyList).
Proof. vm_compute. reflexivity. Qed.

(** C5 as the specification states it fails in two ways.  When the help
    is asked for first, the program prints the help and exits with status
    0, although [--count-1h] is followed by a string that is no integer.
    And the bare [--] joined to the flag, no integer either, is dropped
    by the parser: the command line parses, the child is started with the
    empty list under [count1h], and the program exits with status 0. *)
Lemma bad_integer_exceptions :
  (decimal_int (lit "abc") = None /\
   script ascii_isdecimal decimal_int (always (Completed 0))
     [lit "-h"; lit "--count-1h"; lit "abc"]
   = ([Write stdout HelpText], 0%Z)) /\
  (decimal_int (lit "--") = None /\
   dict_get (lit "count1h") (payload (setattr default_namespace Count1h VEmptyList))
   = Some VEmptyList /\
   script ascii_isdecimal decimal_int (always (Completed 0)) [lit "--count-1h=--"]
   = ([running (setattr default_namespace Count1h VEmptyList);
       Popen (cmd (setattr default_namespace Count1h VEmptyList));
       Wait 0%Z], 0%Z)).
Proof. repeat split; vm_compute; reflexivity. Qed.

(** C10 as the specification states it fails for an integer that the
    parser takes for an option: [int] accepts [-1_000], which is no minus
    sign followed by digits alone, so that [--count-1h -1_000] ends in a
    usage error, with status 2 and no child started. *)
Lemma grouped_integer_rejected :
  grouped_int (lit "-1_000") = Some (-1000)%Z /\
  script ascii_isdecimal grouped_int (always (Completed 0))
    [lit "--count-1h"; lit "-1_000"]
  = ([Write stderr
        (UsageText (expected_one_argument (Store Count1h type_int (VInt 2))))],
     2%Z).
Proof. split; vm_compute; reflexivity. Qed.

(** C8 as the specification states it fails on a run that ends in the
    argument parser: asked for the help, the program starts no child. *)
Lemma help_starts_no_child :
  List.length
    (popens (fst (script ascii_isdecimal decimal_int (always (Completed 0))
                    [lit "--help"])))
  <> 1%nat.
Proof. vm_compute. discriminate. Qed.

(** * Further properties

    ** One pass over the command line *)

Section ReadFacts.
Variable isdecimal : char -> bool.
Variable py_int : str -> option Z.

Lemma parse_optional_dash :
  exists ms, parse_optional isdecimal (lit "--") = Ambiguous ms.
Proof. eexists. reflexivity. Qed.

Lemma positional_not_dash v :
  parse_optional isdecimal v = Positional -> v <> lit "--".
Proof. intros H ->. destruct parse_optional_dash as [ms E]. congruence. Qed.

Lemma unambiguous_not_dash t : unambiguous isdecimal t -> t <> lit "--".
Proof. intros H ->. destruct parse_optional_dash as [ms E]. exact (H ms E). Qed.

Lemma classify_unambiguous l ps :
  classify isdecimal l = inr ps -> ~ In (lit "--") l ->
  forall t, In t l -> unambiguous isdecimal t.
Proof.
  revert ps; induction l as [|s l IH]; intros ps H Hno t Hin; [contradiction|].
  cbn [classify] in H.
  destruct (str_eqb s (lit "--")) eqn:E.
  { apply str_eqb_eq in E. exfalso. apply Hno. now left. }
  assert (Hno' : ~ In (lit "--") l) by (intro; apply Hno; now right).
  destruct (parse_optional isdecimal s) as [|a o e|ms] eqn:P; try discriminate;
    destruct (classify isdecimal l) as [err|ps'] eqn:C; try discriminate;
    (destruct Hin as [<-|Hin]; [unfold unambiguous; intros ms0 E'; congruence|now apply (IH ps')]).
Qed.

Lemma classify_all l :
  (forall t, In t l -> unambiguous isdecimal t) ->
  classify isdecimal l = inr (map (cls isdecimal) l).
Proof.
  induction l as [|s l IH]; intro H; [reflexivity|].
  cbn [classify map]. unfold cls at 1.
  assert (Hs : unambiguous isdecimal s) by (apply H; now left).
  pose proof (unambiguous_not_dash s Hs) as Hd. apply str_eqb_neq in Hd. rewrite Hd.
  rewrite IH by (intros t Ht; apply H; now right).
  destruct (parse_optional isdecimal s) as [|a o e|ms] eqn:P; try reflexivity.
  exfalso. exact (Hs ms P).
Qed.

Lemma consume_extras n : forall ps, (List.length ps <= n)%nat ->
  forall ns ex ns', ex <> [] -> consume py_int ps ns ex <> Parsed ns'.
Proof.
  induction n as [|n IH]; intros ps Hlen ns ex ns' Hex.
  - destruct ps; [|simpl in Hlen; lia]. simpl. now destruct ex.
  - destruct ps as [|[s p] tl]; [simpl; now destruct ex|].
    simpl in Hlen.
    assert (Hex' : ex ++ [s] <> []) by (now destruct ex).
    destruct p as [| |[a|] o e]; try (simpl; apply IH; [lia|assumption]).
    change (consume py_int ((s, pO (Some a) o e) :: tl) ns ex)
      with (match consume_optional py_int ns a o e tl with
            | Left p => p
            | Taken ns' O => consume py_int tl ns' ex
            | Taken ns' (S _) =>
                match tl with
                | _ :: rest' => consume py_int rest' ns' ex
                | [] => Parsed ns'
                end
            end).
    pose proof (consume_optional_spec py_int ns a o e tl) as Hspec.
    destruct (consume_optional py_int ns a o e tl) as [ns1 k|[ns1| |err]];
      try discriminate; try contradiction.
    destruct Hspec as (d' & ty & dv & v & val & -> & -> & _ & [[_ ->]|(_ & -> & r & ->)]).
    + apply IH; [lia|assumption].
    + simpl in Hlen. apply IH; [lia|assumption].
Qed.

Lemma get_values_joined a ty x val :
  get_values py_int a ty [x] = inr val <-> joined_value py_int ty x = Some val.
Proof.
  unfold get_values, joined_value. cbn [remove_first].
  destruct (str_eqb x (lit "--")).
  - split; intros [= <-]; reflexivity.
  - unfold get_value, converted. destruct ty.
    + destruct (py_int x); simpl; split; intro H; try discriminate; now injection H as <-.
    + split; intros [= <-]; reflexivity.
Qed.

Lemma get_values_next a ty v val :
  v <> lit "--" ->
  get_values py_int a ty [v] = inr val <-> converted py_int ty v = Some val.
Proof.
  intro Hv. rewrite get_values_joined. unfold joined_value.
  apply str_eqb_neq in Hv. now rewrite Hv.
Qed.

(** The loop of the parser and the reading in one pass accept the same
    command lines and build the same namespace. *)
Lemma consume_read n : forall l, (List.length l <= n)%nat ->
  forall ns ns',
  (forall t, In t l -> unambiguous isdecimal t) ->
  consume py_int (map (cls isdecimal) l) ns [] = Parsed ns' <->
  read_flags isdecimal py_int l ns = Some ns'.
Proof.
  induction n as [|n IH]; intros l Hlen ns ns' Hun.
  - destruct l; [|simpl in Hlen; lia]. simpl. split; intros [= <-]; reflexivity.
  - destruct l as [|t rest]; [simpl; split; intros [= <-]; reflexivity|].
    simpl in Hlen.
    assert (Ht : unambiguous isdecimal t) by (apply Hun; now left).
    assert (Hrest : forall u, In u rest -> unambiguous isdecimal u)
      by (intros u Hu; apply Hun; now right).
    cbn [map read_flags]. unfold cls at 1.
    destruct (parse_optional isdecimal t) as [|[[|d ty dv]|] o [e|]|ms] eqn:P.
    + split; [|discriminate]. intro H. exfalso.
      cbn [consume] in H. revert H. apply consume_extras with (n := n);
        [rewrite length_map; lia|discriminate].
    + split; [|discriminate]. intro H. exfalso.
      pose proof (consume_optional_spec py_int ns Help o (Some e)
                    (map (cls isdecimal) rest)) as Hspec.
      cbn [consume] in H.
      destruct (consume_optional py_int ns Help o (Some e) (map (cls isdecimal) rest))
        as [ns1 k|[ns1| |err]]; try discriminate; try contradiction.
      destruct Hspec as (? & ? & ? & ? & ? & ? & _); discriminate.
    + split; [|discriminate]. intro H. exfalso.
      pose proof (consume_optional_spec py_int ns Help o None
                    (map (cls isdecimal) rest)) as Hspec.
      cbn [consume] in H.
      destruct (consume_optional py_int ns Help o None (map (cls isdecimal) rest))
        as [ns1 k|[ns1| |err]]; try discriminate; try contradiction.
      destruct Hspec as (? & ? & ? & ? & ? & ? & _); discriminate.
    + rewrite consume_store_joined.
      destruct (get_values py_int (Store d ty dv) ty [e]) as [err|val] eqn:G.
      * split; [discriminate|].
        destruct (joined_value py_int ty e) as [val|] eqn:J; [|discriminate].
        apply (get_values_joined (Store d ty dv)) in J. congruence.
      * apply get_values_joined in G. rewrite G. apply IH; [lia|assumption].
    + destruct rest as [|v rest'].
      * split; [|discriminate]. intro H. apply consume_step_store in H.
        destruct H as (? & ? & ? & ? & _). discriminate.
      * assert (Hv : unambiguous isdecimal v) by (apply Hrest; now left).
        assert (Hrest' : forall u, In u rest' -> unambiguous isdecimal u)
          by (intros u Hu; apply Hrest; now right).
        simpl in Hlen. cbn [map]. unfold cls at 1.
        destruct (parse_optional isdecimal v) as [|a' o' e'|ms] eqn:Pv.
        -- pose proof (positional_not_dash v Pv) as Hvd.
           destruct (converted py_int ty v) as [val|] eqn:Cv.
           ++ apply (get_values_next (Store d ty dv)) in Cv; [|assumption].
              rewrite (consume_store_ok _ _ _ _ _ _ _ _ _ _ _ Cv).
              apply IH; [lia|assumption].
           ++ split; [|discriminate]. intro H. apply consume_step_store in H.
              destruct H as (v' & r & val & Hsel & G & _). injection Hsel as <- _.
              apply get_values_next in G; [congruence|assumption].
        -- split; [|discriminate]. intro H. apply consume_step_store in H.
           destruct H as (? & ? & ? & ? & _). discriminate.
        -- exfalso. exact (Hv ms Pv).
    + split; [|discriminate]. intro H. exfalso.
      cbn [consume] in H. revert H. apply consume_extras with (n := n);
        [rewrite length_map; lia|discriminate].
    + split; [|discriminate]. intro H. exfalso.
      cbn [consume] in H. revert H. apply consume_extras with (n := n);
        [rewrite length_map; lia|discriminate].
    + exfalso. exact (Ht ms P).
Qed.

Lemma read_flags_unambiguous n : forall l, (List.length l <= n)%nat ->
  forall ns ns', read_flags isdecimal py_int l ns = Some ns' ->
  forall t, In t l -> unambiguous isdecimal t.
Proof.
  induction n as [|n IH]; intros l Hlen ns ns' H t Hin.
  - destruct l; [contradiction|simpl in Hlen; lia].
  - destruct l as [|s rest]; [contradiction|]. simpl in Hlen. cbn [read_flags] in H.
    destruct (parse_optional isdecimal s) as [|[[|d ty dv]|] o [e|]|ms] eqn:P;
      try discriminate.
    + destruct (joined_value py_int ty e); [|discriminate].
      destruct Hin as [<-|Hin]; [unfold unambiguous; intros ms0 E; congruence|].
      apply (IH rest ltac:(lia) _ _ H t Hin).
    + destruct rest as [|v rest']; [discriminate|]. simpl in Hlen.
      destruct (parse_optional isdecimal v) eqn:Pv; try discriminate.
      destruct (converted py_int ty v); [|discriminate].
      destruct Hin as [<-|[<-|Hin]]; try (unfold unambiguous; intros ms0 E; congruence).
      apply (IH rest' ltac:(lia) _ _ H t Hin).
Qed.

Lemma parse_read argv ns :
  parse_args isdecimal py_int argv = Parsed ns <->
  read_flags isdecimal py_int argv default_namespace = Some ns.
Proof.
  split.
  - intro H. pose proof (dash_not_parsed isdecimal py_int argv ns H) as Hno.
    pose proof (parsed_patterns isdecimal py_int argv ns H) as Hc.
    unfold parse_args in H.
    destruct (classify isdecimal argv) as [err|ps] eqn:C; [discriminate|].
    apply (consume_read _ argv (Nat.le_refl _)); [|assumption].
    now apply (classify_unambiguous argv ps).
  - intro H.
    pose proof (read_flags_unambiguous _ argv (Nat.le_refl _) _ _ H) as Hun.
    unfold parse_args. rewrite (classify_all argv Hun).
    now apply (consume_read _ argv (Nat.le_refl _)).
Qed.

End ReadFacts.

Section ReadMore.
Variable isdecimal : char -> bool.
Variable py_int : str -> option Z.

Lemma read_flags_app n : forall pre, (List.length pre <= n)%nat ->
  forall rest ns, starts_option isdecimal rest ->
  read_flags isdecimal py_int (pre ++ rest) ns =
  match read_flags isdecimal py_int pre ns with
  | Some ns1 => read_flags isdecimal py_int rest ns1
  | None => None
  end.
Proof.
  induction n as [|n IH]; intros pre Hlen rest ns Hrest.
  - destruct pre; [reflexivity|simpl in Hlen; lia].
  - destruct pre as [|t pre']; [reflexivity|]. simpl in Hlen.
    cbn [Datatypes.app read_flags].
    destruct (parse_optional isdecimal t) as [|[[|d ty dv]|] o [e|]|ms]; try reflexivity.
    + destruct (joined_value py_int ty e); [|reflexivity]. apply IH; [lia|assumption].
    + destruct pre' as [|v pre''].
      * cbn [Datatypes.app]. destruct rest as [|v rest']; [reflexivity|].
        simpl in Hrest. now destruct (parse_optional isdecimal v).
      * cbn [Datatypes.app]. simpl in Hlen.
        destruct (parse_optional isdecimal v); try reflexivity.
        destruct (converted py_int ty v); [|reflexivity]. apply IH; [lia|assumption].
Qed.

Lemma setattr_comm ns d1 d2 x y :
  dest_eqb d1 d2 = false ->
  setattr (setattr ns d1 x) d2 y = setattr (setattr ns d2 y) d1 x.
Proof. destruct d1, d2; simpl; intro H; try discriminate; reflexivity. Qed.

Lemma read_flags_swap f1 k1 ty1 f2 k2 ty2 v1 v2 post ns :
  In (f1, k1, ty1) flag_fields -> In (f2, k2, ty2) flag_fields -> f1 <> f2 ->
  read_flags isdecimal py_int (f1 :: v1 :: f2 :: v2 :: post) ns =
  read_flags isdecimal py_int (f2 :: v2 :: f1 :: v1 :: post) ns.
Proof.
  intros H1 H2 Hne.
  destruct (flag_field_dest isdecimal f1 k1 ty1 H1) as (d1 & dv1 & P1 & _ & O1).
  destruct (flag_field_dest isdecimal f2 k2 ty2 H2) as (d2 & dv2 & P2 & _ & O2).
  assert (Hd : dest_eqb d1 d2 = false).
  { destruct (dest_eqb d1 d2) eqn:E; [|reflexivity]. exfalso. apply Hne.
    assert (d1 = d2) as -> by (destruct d1, d2; try discriminate; reflexivity).
    apply parse_optional_In in P1. now apply (O2 f1 ty1 dv1). }
  cbn [read_flags]. rewrite P1, P2.
  destruct (parse_optional isdecimal v1); destruct (parse_optional isdecimal v2);
    try reflexivity;
    destruct (converted py_int ty1 v1); destruct (converted py_int ty2 v2);
    try reflexivity; cbn [read_flags]; rewrite ?P1, ?P2; try reflexivity.
  now rewrite setattr_comm.
Qed.

Lemma flag_starts_option flag key ty rest :
  In (flag, key, ty) flag_fields -> starts_option isdecimal (flag :: rest).
Proof.
  intro H. destruct (flag_field_dest isdecimal flag key ty H) as (d & dv & P & _).
  simpl. rewrite P. discriminate.
Qed.

Lemma read_flags_same t t' a o e pre post ns :
  parse_optional isdecimal t = Optional a o e ->
  parse_optional isdecimal t' = Optional a o e ->
  read_flags isdecimal py_int (pre ++ t :: post) ns =
  read_flags isdecimal py_int (pre ++ t' :: post) ns.
Proof.
  intros P P'.
  rewrite !(read_flags_app _ pre (Nat.le_refl _)) by (simpl; congruence).
  destruct (read_flags isdecimal py_int pre ns) as [ns1|]; [|reflexivity].
  cbn [read_flags]. now rewrite P, P'.
Qed.

(** *** The help *)

Lemma consume_help n : forall ps, (List.length ps <= n)%nat ->
  forall ns ex, consume py_int ps ns ex = HelpExit -> existsb helpful ps = true.
Proof.
  induction n as [|n IH]; intros ps Hlen ns ex H.
  - destruct ps; [|simpl in Hlen; lia]. simpl in H. now destruct ex.
  - destruct ps as [|[s p] tl]; [simpl in H; now destruct ex|].
    simpl in Hlen. cbn [existsb].
    destruct p as [| |[a|] o e];
      try (simpl in H; apply IH in H; [now rewrite H, orb_true_r|lia]).
    change (consume py_int ((s, pO (Some a) o e) :: tl) ns ex)
      with (match consume_optional py_int ns a o e tl with
            | Left p => p
            | Taken ns' O => consume py_int tl ns' ex
            | Taken ns' (S _) =>
                match tl with
                | _ :: rest' => consume py_int rest' ns' ex
                | [] => Parsed ns'
                end
            end) in H.
    pose proof (consume_optional_spec py_int ns a o e tl) as Hspec.
    destruct (consume_optional py_int ns a o e tl) as [ns1 k|[ns1| |err]];
      try discriminate; try contradiction.
    + destruct Hspec as (d' & ty & dv & v & val & -> & -> & _ & [[_ ->]|(_ & -> & r & ->)]).
      * apply IH in H; [now rewrite H, orb_true_r|lia].
      * simpl in Hlen. apply IH in H; [|lia]. cbn [existsb].
        now rewrite H, !orb_true_r.
    + now subst a.
Qed.

Lemma classify_helpful l ps :
  classify isdecimal l = inr ps -> existsb helpful ps = true ->
  exists t, In t l /\ asks_help isdecimal t = true.
Proof.
  revert ps; induction l as [|s l IH]; intros ps H Hh.
  - injection H as <-. discriminate.
  - cbn [classify] in H. destruct (str_eqb s (lit "--")).
    + injection H as <-. exfalso. cbn [existsb] in Hh.
      change (helpful (s, pDash)) with false in Hh. cbn [orb] in Hh.
      apply existsb_exists in Hh as (sp & Hin & Hsp).
      apply in_map_iff in Hin as (u & <- & _). discriminate.
    + destruct (parse_optional isdecimal s) as [|a o e|ms] eqn:P; try discriminate;
        destruct (classify isdecimal l) as [err|ps'] eqn:C; try discriminate;
        injection H as <-; cbn [existsb] in Hh; apply orb_true_iff in Hh as [Hh|Hh].
      * discriminate.
      * destruct (IH ps' eq_refl Hh) as (t & Ht & Hask). exists t. split; [now right|assumption].
      * exists s. split; [now left|]. unfold asks_help. rewrite P.
        unfold helpful in Hh. cbn [snd] in Hh. now destruct a as [[|]|].
      * destruct (IH ps' eq_refl Hh) as (t & Ht & Hask). exists t. split; [now right|assumption].
Qed.

Lemma parse_help_asked argv :
  parse_args isdecimal py_int argv = HelpExit ->
  exists t, In t argv /\ asks_help isdecimal t = true.
Proof.
  unfold parse_args.
  destruct (classify isdecimal argv) as [err|ps] eqn:C; [discriminate|].
  intro H. apply (consume_help _ ps (Nat.le_refl _)) in H.
  now apply (classify_helpful argv ps).
Qed.

Lemma classify_defined l :
  (forall u, In u l -> u = lit "--" \/ unambiguous isdecimal u) ->
  exists ps, classify isdecimal l = inr ps.
Proof.
  induction l as [|s l IH]; intro H; [now exists []|].
  cbn [classify]. destruct (str_eqb s (lit "--")) eqn:E; [eauto|].
  destruct IH as [ps' C]; [intros u Hu; apply H; now right|]. rewrite C.
  destruct (H s (or_introl eq_refl)) as [->|Hs]; [now rewrite str_eqb_refl in E|].
  destruct (parse_optional isdecimal s) as [|a o e|ms] eqn:P; eauto.
  exfalso. exact (Hs ms P).
Qed.

End ReadMore.

(** ** The types of the values *)

Lemma split_first_app c s l r :
  split_first c s = Some (l, r) -> s = l ++ c :: r.
Proof.
  revert l; induction s as [|d s IH]; intros l; simpl; [discriminate|].
  destruct (d =? c) eqn:E.
  - apply N.eqb_eq in E. subst d. now intros [= <- <-].
  - destruct (split_first c s) as [[l' r']|]; [|discriminate].
    intros [= <- <-]. simpl. f_equal. now apply IH.
Qed.

Lemma store_types o d ty dv :
  In (o, Store d ty dv) option_string_actions -> ty = type_of_dest d.
Proof.
  intro H. simpl in H.
  repeat (destruct H as [H|H]; [try discriminate; now injection H as _ <- <- _|]).
  contradiction.
Qed.

Lemma store_not_short o d ty dv c0 c1 :
  In (o, Store d ty dv) option_string_actions -> o <> [c0; c1].
Proof.
  intros H ->. simpl in H.
  repeat (destruct H as [H|H]; [vm_compute in H; discriminate|]).
  contradiction.
Qed.

Lemma get_option_tuples_joined s d ty dv o e :
  In (Store d ty dv, o, Some e) (get_option_tuples s) ->
  exists p, s = p ++ c_equals :: e.
Proof.
  unfold get_option_tuples.
  destruct s as [|c0 [|c1 s]]; try (intros []).
  destruct ((c0 =? c_minus) && (c1 =? c_minus)).
  - destruct (split_first c_equals (c0 :: c1 :: s)) as [[p x]|] eqn:S;
      intro H; apply in_flat_map in H as [[o' a'] [Hin H]]; cbn [fst snd] in H;
      destruct (startswith o' _); simpl in H; try contradiction;
      destruct H as [H|[]]; try discriminate; injection H as _ _ <-.
    exists p. now apply split_first_app.
  - destruct (c0 =? c_minus); [|intros []].
    intro H; apply in_flat_map in H as [[o' a'] [Hin H]]; cbn [fst snd] in H.
    destruct (str_eqb o' (firstn 2 (c0 :: c1 :: s))) eqn:E;
      [|destruct (startswith o' _); simpl in H; try contradiction;
        destruct H as [H|[]]; discriminate].
    destruct H as [H|[]]. injection H as -> _ _.
    apply str_eqb_eq in E. cbn [firstn] in E.
    exfalso. exact (store_not_short _ _ _ _ _ _ Hin E).
Qed.

Section Typed.
Variable isdecimal : char -> bool.
Variable py_int : str -> option Z.

Lemma parse_optional_joined_text t d ty dv o e :
  parse_optional isdecimal t = Optional (Some (Store d ty dv)) o (Some e) ->
  exists p, t = p ++ c_equals :: e.
Proof.
  unfold parse_optional.
  destruct t as [|c0 tl]; [discriminate|].
  destruct (negb (c0 =? c_minus)); [discriminate|].
  destruct (lookup_action option_string_actions (c0 :: tl)) as [a0|]; [discriminate|].
  destruct tl as [|c1 tl]; [discriminate|].
  assert (Htuples :
    match get_option_tuples (c0 :: c1 :: tl) with
    | (_ :: _ :: _) as ts => Ambiguous (map (fun t => snd (fst t)) ts)
    | [(a1, option_string, explicit_arg)] => Optional (Some a1) option_string explicit_arg
    | [] =>
        if negative_number_matcher isdecimal (c0 :: c1 :: tl) then Positional
        else if contains_char c_space (c0 :: c1 :: tl) then Positional
        else Optional None (c0 :: c1 :: tl) None
    end = Optional (Some (Store d ty dv)) o (Some e) ->
    exists p, c0 :: c1 :: tl = p ++ c_equals :: e).
  { destruct (get_option_tuples (c0 :: c1 :: tl)) as [|[[a2 o2] e2] [|t2 ts]] eqn:G.
    - destruct (negative_number_matcher _ _); [discriminate|].
      destruct (contains_char _ _); discriminate.
    - intros [= -> -> ->].
      apply (get_option_tuples_joined (c0 :: c1 :: tl) d ty dv o e).
      rewrite G. now left.
    - discriminate. }
  destruct (split_first c_equals (c0 :: c1 :: tl)) as [[os ex]|] eqn:S; [|exact Htuples].
  destruct (lookup_action option_string_actions os) as [a1|]; [|exact Htuples].
  intros [= -> -> ->]. exists o. now apply split_first_app.
Qed.

Lemma converted_has_type ty v val :
  converted py_int ty v = Some val -> has_type ty val = true.
Proof.
  destruct ty; simpl.
  - destruct (py_int v); simpl; [|discriminate]. now intros [= <-].
  - now intros [= <-].
Qed.

Lemma typed_setattr ns d val :
  typed ns = true -> has_type (type_of_dest d) val = true ->
  typed (setattr ns d val) = true.
Proof.
  unfold typed. intros H Hv. repeat (apply andb_true_iff in H as [H ?]).
  destruct d; cbn [setattr count_1h count_24h minutes_1h minutes_24h team_name
                   type_of_dest] in *;
    repeat (apply andb_true_iff; split); assumption.
Qed.

(** The reading keeps every attribute at its type, as long as no argument
    joins the bare [--] to a flag. *)
Lemma read_flags_typed n : forall l, (List.length l <= n)%nat ->
  forall ns ns',
  (forall t p, In t l -> t <> p ++ lit "=--") ->
  typed ns = true ->
  read_flags isdecimal py_int l ns = Some ns' -> typed ns' = true.
Proof.
  induction n as [|n IH]; intros l Hlen ns ns' Hno Hns H.
  - destruct l; [|simpl in Hlen; lia]. now injection H as <-.
  - destruct l as [|t rest]; [now injection H as <-|]. simpl in Hlen.
    cbn [read_flags] in H.
    destruct (parse_optional isdecimal t) as [|[[|d ty dv]|] o [e|]|ms] eqn:P;
      try discriminate.
    + pose proof (store_types _ _ _ _ (parse_optional_In _ _ _ _ _ P)) as ->.
      unfold joined_value in H. destruct (str_eqb e (lit "--")) eqn:E.
      * apply str_eqb_eq in E. subst e.
        destruct (parse_optional_joined_text _ _ _ _ _ _ P) as [p Hp].
        exfalso. apply (Hno t p); [now left|exact Hp].
      * destruct (converted py_int (type_of_dest d) e) as [val|] eqn:C; [|discriminate].
        apply (IH rest ltac:(lia) _ _) in H; [assumption| |].
        -- intros u p Hu. apply Hno. now right.
        -- apply typed_setattr; [assumption|]. now apply (converted_has_type _ e).
    + pose proof (store_types _ _ _ _ (parse_optional_In _ _ _ _ _ P)) as ->.
      destruct rest as [|v rest']; [discriminate|]. simpl in Hlen.
      destruct (parse_optional isdecimal v); try discriminate.
      destruct (converted py_int (type_of_dest d) v) as [val|] eqn:C; [|discriminate].
      apply (IH rest' ltac:(lia) _ _) in H; [assumption| |].
      * intros u p Hu. apply Hno. now do 2 right.
      * apply typed_setattr; [assumption|]. now apply (converted_has_type _ v).
Qed.

End Typed.

(** ** Exit statuses and printed text *)

Lemma exit_status_signal s :
  (0 < s < 256)%Z -> exit_status (- s) = (256 - s)%Z.
Proof.
  intro H. unfold exit_status. change 255%Z with (Z.ones 8).
  rewrite Z.land_ones by lia. symmetry.
  apply (Z.mod_unique (- s) (2 ^ 8) (-1) (256 - s)); lia.
Qed.

Lemma exit_status_nonzero rc :
  (-256 < rc < 256)%Z -> rc <> 0%Z -> exit_status rc <> 0%Z.
Proof.
  intros H Hz. destruct (Z.lt_ge_cases rc 0).
  - replace rc with (- (- rc))%Z by lia. rewrite exit_status_signal; lia.
  - rewrite exit_status_byte; lia.
Qed.

Lemma printable_repr z : forallb printable (repr_int z) = true.
Proof. exact (printable_value (VInt z)). Qed.

Lemma printable_join_space l :
  forallb (forallb printable) l = true -> forallb printable (join (lit " ") l) = true.
Proof.
  induction l as [|x l IH]; intro H; [reflexivity|].
  cbn [forallb] in H. apply andb_true_iff in H as [Hx Hl].
  destruct l as [|y l']; [exact Hx|].
  change (join (lit " ") (x :: y :: l')) with (x ++ 32 :: join (lit " ") (y :: l')).
  rewrite forallb_app, Hx. cbn [forallb andb]. now apply IH.
Qed.

Lemma printable_cmd ns : forallb (forallb printable) (cmd ns) = true.
Proof.
  unfold cmd. cbn [forallb]. rewrite printable_dumps. reflexivity.
Qed.

Section Extras.
Variable isdecimal : char -> bool.
Variable py_int : str -> option Z.
Variable os : list str -> child.

Local Notation "'parse'" := (parse_args isdecimal py_int).
Local Notation "'run'" := (script isdecimal py_int os).

(** X1.  The command lines that parse are the sequences of flags, in full
    or abbreviated, with one value each: joined to the flag by an equals
    sign, where the value converts or is the bare [--], for which the
    parser stores the empty list; or following the flag as the next
    string, which the parser takes for an argument and which converts.
    The namespace is the defaults overwritten from left to right by what
    each flag stores. *)
Theorem accepted_command_lines argv ns :
  parse argv = Parsed ns <->
  read_flags isdecimal py_int argv default_namespace = Some ns.
Proof. apply parse_read. Qed.

(** X2.  Any other command line starts no child; the program writes a
    usage error to standard error and exits with status 2, unless some
    argument asks for the help. *)
Theorem rejected_command_line argv :
  read_flags isdecimal py_int argv default_namespace = None ->
  popens (fst (run argv)) = [] /\
  ((forall t, In t argv -> asks_help isdecimal t = false) ->
   exists e, run argv = ([Write stderr (UsageText e)], 2%Z)).
Proof.
  intro Hread.
  destruct (parse argv) as [ns| |e] eqn:Hparse.
  - apply parse_read in Hparse. congruence.
  - rewrite (run_help _ _ _ _ Hparse). split; [reflexivity|].
    intro Hno. destruct (parse_help_asked _ _ _ Hparse) as (t & Ht & Hask).
    rewrite (Hno t Ht) in Hask. discriminate.
  - rewrite (run_usage _ _ _ _ _ Hparse). split; [reflexivity|]. intros _. now exists e.
Qed.

(** X3.  The help asked for as the first argument wins over whatever
    follows it, be it a string that is no integer or an unknown option:
    the program prints the help on standard output and exits with status
    0, provided no later argument is an ambiguous abbreviation. *)
Theorem help_first t o rest :
  parse_optional isdecimal t = Optional (Some Help) o None ->
  (forall u, In u rest -> u = lit "--" \/ unambiguous isdecimal u) ->
  run (t :: rest) = ([Write stdout HelpText], 0%Z).
Proof.
  intros P Hrest. apply run_help. unfold parse_args.
  destruct (classify_defined isdecimal rest Hrest) as [ps C].
  assert (Ht : str_eqb t (lit "--") = false).
  { apply str_eqb_neq. intros ->.
    destruct (parse_optional_dash isdecimal) as [ms E]. congruence. }
  now rewrite (classify_optional _ _ _ _ _ _ Ht P), C.
Qed.

(** X4.  When the child is killed by signal [s], so that its return code
    is [-s], the line on standard error names [-s] and the exit status of
    the program is [256 - s]. *)
Theorem killed_child argv ns s :
  parse argv = Parsed ns ->
  os (cmd ns) = Completed (- s) ->
  (0 < s < 256)%Z ->
  writes stderr (fst (run argv)) =
    [Line (lit "Seed failed (exit " ++ repr_int (- s) ++ lit ").")] /\
  snd (run argv) = (256 - s)%Z.
Proof.
  intros Hparse Hos Hs.
  rewrite (run_parsed _ _ _ _ _ Hparse), Hos.
  replace (- s =? 0)%Z with false by (symmetry; apply Z.eqb_neq; lia).
  split; [reflexivity|]. cbn [snd]. now apply exit_status_signal.
Qed.

(** X5.  Unless some argument ends in [=--], the payload of a command line
    that parses holds integers in its four numeric fields and a string in
    [reuseTeamName]. *)
Theorem typed_payload argv ns :
  parse argv = Parsed ns ->
  (forall t p, In t argv -> t <> p ++ lit "=--") ->
  exists n1 n24 m1 m24 team,
    payload ns =
      [ (lit "count1h", VInt n1);
        (lit "count24h", VInt n24);
        (lit "minutesFromNowFor1h", VInt m1);
        (lit "minutesFromNowFor24h", VInt m24);
        (lit "reuseTeamName", VStr team) ].
Proof.
  intros Hparse Hno. apply parse_read in Hparse.
  apply (read_flags_typed _ _ _ _ (Nat.le_refl _)) in Hparse;
    [|assumption|reflexivity].
  unfold typed in Hparse. repeat (apply andb_true_iff in Hparse as [Hparse ?]).
  unfold payload. destruct ns as [[] [] [] [] []]; try discriminate.
  cbn [count_1h count_24h minutes_1h minutes_24h team_name]. eauto 6.
Qed.

(** X6.  The order of two different flags does not matter: exchanging two
    neighbouring pairs of a flag and its value changes neither whether
    the command line parses nor the namespace. *)
Theorem flags_commute f1 k1 ty1 f2 k2 ty2 pre v1 v2 post ns :
  In (f1, k1, ty1) flag_fields -> In (f2, k2, ty2) flag_fields -> f1 <> f2 ->
  parse (pre ++ f1 :: v1 :: f2 :: v2 :: post) = Parsed ns <->
  parse (pre ++ f2 :: v2 :: f1 :: v1 :: post) = Parsed ns.
Proof.
  intros H1 H2 Hne. rewrite !parse_read.
  rewrite (read_flags_app _ _ _ pre (Nat.le_refl _))
    by (apply (flag_starts_option _ f1 k1 ty1); assumption).
  rewrite (read_flags_app _ _ _ pre (Nat.le_refl _) (f2 :: _))
    by (apply (flag_starts_option _ f2 k2 ty2); assumption).
  destruct (read_flags isdecimal py_int pre default_namespace) as [ns1|]; [|reflexivity].
  now rewrite (read_flags_swap _ _ f1 k1 ty1 f2 k2 ty2).
Qed.

(** X7.  An option may be written in any way the parser resolves alike,
    in full or abbreviated: replacing one spelling by another changes
    neither whether the command line parses nor the namespace. *)
Theorem same_option t t' a o e pre post ns :
  parse_optional isdecimal t = Optional a o e ->
  parse_optional isdecimal t' = Optional a o e ->
  parse (pre ++ t :: post) = Parsed ns <-> parse (pre ++ t' :: post) = Parsed ns.
Proof.
  intros P P'. rewrite !parse_read.
  now rewrite (read_flags_same _ _ t t' a o e).
Qed.

(** X8.  The command tells the namespaces apart: two command lines that
    parse to different namespaces give different argument vectors. *)
Theorem command_injective argv1 argv2 ns1 ns2 :
  forallb (forallb os_char) argv1 = true ->
  forallb (forallb os_char) argv2 = true ->
  parse argv1 = Parsed ns1 ->
  parse argv2 = Parsed ns2 ->
  cmd ns1 = cmd ns2 ->
  ns1 = ns2.
Proof.
  intros Ha1 Ha2 H1 H2 Hcmd.
  assert (Hwf : forall ns, wf_namespace ns = true ->
                           forallb wf_item (payload ns) = true).
  { intros ns Hwf. unfold wf_namespace in Hwf.
    repeat (apply andb_true_iff in Hwf as [Hwf ?]).
    unfold payload, wf_item. cbn [forallb fst snd].
    repeat (apply andb_true_iff; split); try assumption; reflexivity. }
  pose proof (json_loads_dumps _ (Hwf ns1 (parsed_wf _ _ _ _ Ha1 H1))) as L1.
  pose proof (json_loads_dumps _ (Hwf ns2 (parsed_wf _ _ _ _ Ha2 H2))) as L2.
  assert (Hj : json_dumps (payload ns1) = json_dumps (payload ns2))
    by exact (f_equal (fun l => nth 4 l []) Hcmd).
  rewrite Hj in L1.
  rewrite L1 in L2. injection L2 as E1 E2 E3 E4 E5.
  destruct ns1, ns2. cbn in *. congruence.
Qed.

(** X9.  For return codes within the range of exit codes and signals,
    the program exits with status 0 exactly when it has written nothing
    to standard error. *)
Theorem silent_iff_success argv :
  (forall c rc, os c = Completed rc -> (-256 < rc < 256)%Z) ->
  writes stderr (fst (run argv)) = [] <-> snd (run argv) = 0%Z.
Proof.
  intro Hos.
  destruct (parse argv) as [ns| |e] eqn:Hparse.
  - rewrite (run_parsed _ _ _ _ _ Hparse).
    destruct (os (cmd ns)) as [rc|err] eqn:E.
    + destruct (rc =? 0)%Z eqn:Z0; [split; reflexivity|].
      apply Z.eqb_neq in Z0.
      split; [discriminate|]. cbn [snd]. intro H. exfalso.
      exact (exit_status_nonzero rc (Hos _ _ E) Z0 H).
    + split; discriminate.
  - rewrite (run_help _ _ _ _ Hparse). split; reflexivity.
  - rewrite (run_usage _ _ _ _ _ Hparse). split; discriminate.
Qed.

(** X10.  Whatever the command line, the lines the program prints itself
    and the arguments it hands to the system are plain ASCII without
    control characters. *)
Theorem printed_ascii argv :
  forallb (forallb printable) (lines (fst (run argv))) = true /\
  forallb (forallb (forallb printable)) (popens (fst (run argv))) = true.
Proof.
  assert (Hrun : forall ns, forallb printable
                   (lit "Running: " ++ join (lit " ") (cmd ns)) = true).
  { intro ns. rewrite forallb_app, printable_join_space by apply printable_cmd.
    reflexivity. }
  assert (Hfail : forall rc, forallb printable (seed_failed rc) = true).
  { intro rc. unfold seed_failed. now rewrite !forallb_app, printable_repr. }
  destruct (parse argv) as [ns| |e] eqn:Hparse.
  - rewrite (run_parsed _ _ _ _ _ Hparse).
    destruct (os (cmd ns)) as [rc|err]; [destruct (rc =? 0)%Z|];
      cbn [fst lines popens running forallb];
      rewrite ?Hrun, ?Hfail, ?printable_cmd; split; reflexivity.
  - rewrite (run_help _ _ _ _ Hparse). split; reflexivity.
  - rewrite (run_usage _ _ _ _ _ Hparse). split; reflexivity.
Qed.

End Extras.

(** ** The further properties on the sample system *)

Lemma accepted_command_lines_witness :
  read_flags ascii_isdecimal decimal_int
    [lit "--count-1h=7"; lit "--team-name"; sample_team] default_namespace
  = Some (sample_args 7 2 65 1450 sample_team).
Proof.
  apply (proj1 (accepted_command_lines ascii_isdecimal decimal_int
                  [lit "--count-1h=7"; lit "--team-name"; sample_team]
                  (sample_args 7 2 65 1450 sample_team))).
  vm_compute. reflexivity.
Defined.

Lemma rejected_command_line_witness :
  exists e,
    script ascii_isdecimal decimal_int (always (Completed 0))
      [lit "--count-1h"; lit "5"; lit "6"]
    = ([Write stderr (UsageText e)], 2%Z).
Proof.
  apply (proj2 (rejected_command_line ascii_isdecimal decimal_int (always (Completed 0))
                  [lit "--count-1h"; lit "5"; lit "6"] ltac:(vm_compute; reflexivity))).
  intros t [<-|[<-|[<-|[]]]]; vm_compute; reflexivity.
Defined.

Lemma help_first_witness :
  script ascii_isdecimal decimal_int (always (Completed 0))
    [lit "--help"; lit "--count-1h"; lit "abc"; lit "--"; lit "--bogus"]
  = ([Write stdout HelpText], 0%Z).
Proof.
  apply (help_first ascii_isdecimal decimal_int (always (Completed 0))
           (lit "--help") (lit "--help")
           [lit "--count-1h"; lit "abc"; lit "--"; lit "--bogus"]).
  - vm_compute. reflexivity.
  - intros u [<-|[<-|[<-|[<-|[]]]]];
      try (left; reflexivity);
      right; intros ms; vm_compute; discriminate.
Defined.

Lemma killed_child_witness :
  writes stderr (fst (script ascii_isdecimal decimal_int (always (Completed (-9))) [])) =
    [Line (lit "Seed failed (exit " ++ repr_int (- 9) ++ lit ").")] /\
  snd (script ascii_isdecimal decimal_int (always (Completed (-9))) []) = (256 - 9)%Z.
Proof.
  apply (killed_child ascii_isdecimal decimal_int (always (Completed (-9))) []
           default_namespace 9%Z).
  - reflexivity.
  - reflexivity.
  - lia.
Defined.

Lemma typed_payload_witness :
  exists n1 n24 m1 m24 team,
    payload (sample_args 7 2 65 1450 sample_team) =
      [ (lit "count1h", VInt n1);
        (lit "count24h", VInt n24);
        (lit "minutesFromNowFor1h", VInt m1);
        (lit "minutesFromNowFor24h", VInt m24);
        (lit "reuseTeamName", VStr team) ].
Proof.
  apply (typed_payload ascii_isdecimal decimal_int
           [lit "--count-1h=7"; lit "--team-name"; sample_team]).
  - vm_compute. reflexivity.
  - intros t p [<-|[<-|[<-|[]]]] H;
      apply (f_equal (fun s => firstn 3 (List.rev s))) in H;
      rewrite List.rev_app_distr in H; vm_compute in H; discriminate.
Defined.

Lemma flags_commute_witness :
  parse_args ascii_isdecimal decimal_int
    [lit "--team-name"; lit "x"; lit "--count-1h"; lit "5"]
  = Parsed (sample_args 5 2 65 1450 (lit "x")).
Proof.
  apply (proj1 (flags_commute ascii_isdecimal decimal_int
                  (lit "--count-1h") (lit "count1h") type_int
                  (lit "--team-name") (lit "reuseTeamName") type_str
                  [] (lit "5") (lit "x") []
                  (sample_args 5 2 65 1450 (lit "x"))
                  ltac:(left; reflexivity)
                  ltac:(do 4 right; left; reflexivity)
                  ltac:(vm_compute; discriminate))).
  vm_compute. reflexivity.
Defined.

Lemma same_option_witness :
  parse_args ascii_isdecimal decimal_int [lit "--count-2"; lit "5"; lit "--t=x"]
  = Parsed (sample_args 2 5 65 1450 (lit "x")).
Proof.
  apply (proj1 (same_option ascii_isdecimal decimal_int
                  (lit "--count-24h") (lit "--count-2")
                  (Some (Store Count24h type_int (VInt 2))) (lit "--count-24h") None
                  [] [lit "5"; lit "--t=x"]
                  (sample_args 2 5 65 1450 (lit "x"))
                  ltac:(vm_compute; reflexivity) ltac:(vm_compute; reflexivity))).
  vm_compute. reflexivity.
Defined.

Lemma command_injective_witness :
  sample_args 2 2 65 1450 (lit "Seed Team") = default_namespace.
Proof.
  apply (command_injective ascii_isdecimal decimal_int
           [lit "--count-1h"; lit "+2"] []).
  - vm_compute. reflexivity.
  - reflexivity.
  - vm_compute. reflexivity.
  - vm_compute. reflexivity.
  - vm_compute. reflexivity.
Defined.

Lemma silent_iff_success_witness :
  writes stderr (fst (script ascii_isdecimal decimal_int (always (Completed 3)) [])) = []
  <-> snd (script ascii_isdecimal decimal_int (always (Completed 3)) []) = 0%Z.
Proof.
  apply (silent_iff_success ascii_isdecimal decimal_int (always (Completed 3)) []).
  intros c rc [= <-]. lia.
Defined.
